(** * Personal finance tracker: the request handlers of the server function

    A shallow embedding of the Hono server of the repository (the file that
    registers the routes under [/make-server-8b4b78bc/]) and the properties
    of its per-user key space, its budget aggregation and its handlers.

    - JSON values are the inductive [jsval]; numbers are IEEE 754 binary64
      floats (Rocq's primitive floats), strings are sequences of one-byte
      characters, objects are finite maps from property names to values.
    - The handlers run in a small state-and-exception monad [M] over a
      [world]: the key-value table, the trace of the store calls issued so
      far and the number of identifiers and timestamps drawn so far.
    - Everything outside the program is gathered in an [env]: the three
      conversions of the JavaScript runtime that the handlers can reach but
      that are not computed here, the identity provider, the random source,
      the clock and the availability of the store. *)

From Stdlib Require Import ZArith Ascii Floats Numbers.Cyclic.Int63.Uint63.
From stdpp Require Import gmap strings list fin_maps pretty.

Set Warnings "-register-all".
Set Default Proof Using "Type".

(** ** JSON values *)

Inductive jsval :=
| JUndef
| JNull
| JBool (b : bool)
| JNum (x : float)
| JStr (s : string)
| JArr (l : list jsval)
| JObj (o : gmap string jsval).

(** An entity (a stored transaction or budget) is a JavaScript object. *)
Abbreviation obj := (gmap string jsval).

(** [o.k] on an object: [undefined] when the property is absent. *)
Definition fld (o : obj) (k : string) : jsval := default JUndef (o !! k).

(** [v.k] for the property names the handlers read ([amount], [type],
    [category], [description], [date], [period], [email], ...): none of them
    is an index or [length], so arrays, strings, numbers and booleans answer
    [undefined].  Reading a property of [null] or [undefined] throws; the
    handlers do that only when they destructure a request body, see
    [destructure]. *)
Definition prop (v : jsval) (k : string) : jsval :=
  match v with
  | JObj o => fld o k
  | _ => JUndef
  end.

(** ** The environment of the server *)

Record env := {
  (** [parseFloat] on a string: the longest prefix that is a decimal literal,
      after leading white space; [NaN] when there is none. *)
  parseFloat_string : string → float;
  (** [Number::toString], radix 10. *)
  Number_toString : float → string;
  (** [StringToNumber], the conversion [ToNumber] applies to a string. *)
  StringToNumber : string → float;
  (** [supabase.auth.getUser(token)]: the identifier of the user the token
      belongs to; [None] when the provider answers with an error or without
      a user. *)
  auth_getUser : string → option string;
  (** [supabase.auth.admin.createUser]: the error message, or the user. *)
  auth_createUser : jsval → jsval → jsval → string + jsval;
  (** The text after ['txn_'] in the n-th identifier drawn:
      [Math.random().toString(36).substr(2, 9) + Date.now().toString(36)]. *)
  random_part : nat → string;
  (** [new Date().toISOString()] at the n-th draw. *)
  iso_time : nat → string;
  (** Whether the n-th call of the store fails (table unavailable). *)
  kv_fails : nat → bool
}.

(** ** JavaScript operators used by the handlers *)

Fixpoint join (sep : string) (l : list string) : string :=
  match l with
  | [] => EmptyString
  | [s] => s
  | s :: r => s +:+ sep +:+ join sep r
  end.

Section Runtime.
Context (E : env).

(** [ToString]. An array joins its elements with commas, [null] and
    [undefined] elements printing as the empty string; an object parsed
    from JSON has no [toString] of its own. *)
Fixpoint to_string (v : jsval) : string :=
  match v with
  | JUndef => "undefined"
  | JNull => "null"
  | JBool true => "true"
  | JBool false => "false"
  | JNum x => Number_toString E x
  | JStr s => s
  | JArr l =>
      join "," (List.map (λ e, match e with
                               | JUndef | JNull => EmptyString
                               | _ => to_string e
                               end) l)
  | JObj _ => "[object Object]"
  end.

(** [ToNumber]. *)
Definition to_number (v : jsval) : float :=
  match v with
  | JUndef => nan
  | JNull => 0
  | JBool true => 1
  | JBool false => 0
  | JNum x => x
  | JStr s => StringToNumber E s
  | JArr _ => StringToNumber E (to_string v)
  | JObj _ => nan
  end.

(** [a + b]: concatenation as soon as one operand is (or prints as) a
    string, addition of numbers otherwise. *)
Definition is_stringy (v : jsval) : bool :=
  match v with
  | JStr _ | JArr _ | JObj _ => true
  | _ => false
  end.

Definition js_add (a b : jsval) : jsval :=
  if is_stringy a || is_stringy b
  then JStr (to_string a +:+ to_string b)
  else JNum (to_number a + to_number b).

(** [a - b]. *)
Definition js_sub (a b : jsval) : jsval := JNum (to_number a - to_number b).

(** [a === b] on two values that come from different parses: objects and
    arrays are then never the same reference. *)
Definition strict_eq (a b : jsval) : bool :=
  match a, b with
  | JUndef, JUndef => true
  | JNull, JNull => true
  | JBool x, JBool y => bool_decide (x = y)
  | JNum x, JNum y => PrimFloat.eqb x y
  | JStr x, JStr y => String.eqb x y
  | _, _ => false
  end.

(** [parseFloat(v)] is [parseFloat] of [ToString v].  A number prints in
    the shortest form that reads back as itself, and both zeros print as
    ["0"]: on a number [parseFloat] is the identity, except that it sends
    [-0] to [0]. *)
Definition parseFloat (v : jsval) : float :=
  match v with
  | JNum x => if PrimFloat.eqb x 0 then 0%float else x
  | _ => parseFloat_string E (to_string v)
  end.

(** [{...v}]: the own enumerable properties of [v]. *)
Fixpoint index_props (i : nat) (l : list jsval) : obj :=
  match l with
  | [] => ∅
  | v :: r => <[pretty i := v]> (index_props (S i) r)
  end.

Fixpoint chars (s : string) : list jsval :=
  match s with
  | EmptyString => []
  | String c r => JStr (String c EmptyString) :: chars r
  end.

Definition spread (v : jsval) : obj :=
  match v with
  | JObj o => o
  | JArr l => index_props 0 l
  | JStr s => index_props 0 (chars s)
  | _ => ∅
  end.
End Runtime.

(** ** The world and the monad of the handlers *)

(** A call of the key-value store. *)
Inductive kvop :=
| KvGet (key : string)
| KvSet (key : string) (value : obj)
| KvDel (key : string)
| KvGetByPrefix (prefix : string).

Record world := {
  (** the table: key to stored value *)
  kv : gmap string obj;
  (** the store calls issued so far, oldest first *)
  trace : list kvop;
  (** how many identifiers and timestamps have been drawn *)
  tick : nat
}.

(** A computation either returns or throws; the world it leaves behind is
    kept in both cases (a handler that fails midway has done its earlier
    writes). *)
Inductive outcome (A : Type) :=
| Ret (a : A)
| Throw.
Arguments Ret {A} a.
Arguments Throw {A}.

Definition M (A : Type) : Type := world → outcome A * world.

Definition ret {A} (a : A) : M A := λ w, (Ret a, w).
Definition throw {A} : M A := λ w, (Throw, w).
Definition bind {A B} (m : M A) (f : A → M B) : M B :=
  λ w, match m w with
       | (Ret a, w') => f a w'
       | (Throw, w') => (Throw, w')
       end.

(** [try { m } catch (error) { h }] *)
Definition try_catch {A} (m : M A) (h : M A) : M A :=
  λ w, match m w with
       | (Ret a, w') => (Ret a, w')
       | (Throw, w') => h w'
       end.

(** The notations [x ← m; k] and [m;; k] are those of stdpp's monads. *)
#[export] Instance M_ret : MRet M := @ret.
#[export] Instance M_bind : MBind M := λ A B f m, bind m f.

(** [for (const x of l) { body x }] *)
Fixpoint for_of {A} (l : list A) (body : A → M unit) : M unit :=
  match l with
  | [] => ret tt
  | x :: r => body x;; for_of r body
  end.

(** ** Key space *)

(** [`transaction:${userId}:${id}`] and [`budget:${userId}:${id}`], and
    the prefixes the scans use. *)
Definition transaction_prefix (userId : string) : string :=
  "transaction:" +:+ userId +:+ ":".
Definition budget_prefix (userId : string) : string :=
  "budget:" +:+ userId +:+ ":".
Definition transaction_key (userId id : string) : string :=
  "transaction:" +:+ userId +:+ ":" +:+ id.
Definition budget_key (userId id : string) : string :=
  "budget:" +:+ userId +:+ ":" +:+ id.

(** ** The key-value store *)

(** The module [kv_store.tsx] that the server imports as [kv] is not among
    the sources; its four accessors are modelled from the spec.  The table
    maps keys to the values written: every [kv.set] of the server writes an
    object, so that the values are objects.  What the real table does to a
    value on its way in and out (its JSON encoding) is not modelled. *)

(** Modelled from the spec: [scanByPrefix(prefix)], the stored entries
    whose key starts with [prefix], in no specified order (here, that of
    the map). *)
Definition scan (p : string) (m : gmap string obj) : list (string * obj) :=
  map_to_list (filter (λ e, String.prefix p e.1) m).

(** The three ways a step changes the world. *)
Definition logged (op : kvop) (w : world) : world :=
  {| kv := kv w; trace := trace w ++ [op]; tick := tick w |}.
Definition stored (m : gmap string obj) (w : world) : world :=
  {| kv := m; trace := trace w; tick := tick w |}.
Definition ticked (w : world) : world :=
  {| kv := kv w; trace := trace w; tick := S (tick w) |}.

Section Store.
Context (E : env).

(** Modelled from the spec: every accessor fails only when the underlying
    store is unavailable, and the failure reaches the caller.  The call is
    recorded in the trace; the n-th call of a run fails when the environment
    says so, and a failed call is taken to leave the table as it was. *)
Definition kv_call {A} (op : kvop) (f : gmap string obj → A * gmap string obj) : M A :=
  λ w,
    if kv_fails E (length (trace w)) then (Throw, logged op w)
    else (Ret (f (kv w)).1, stored (f (kv w)).2 (logged op w)).

(** Modelled from the spec: [get(key)], the value or absent. *)
Definition kv_get (key : string) : M (option obj) :=
  kv_call (KvGet key) (λ m, (m !! key, m)).

(** Modelled from the spec: [set(key, value)]. *)
Definition kv_set (key : string) (value : obj) : M unit :=
  kv_call (KvSet key value) (λ m, (tt, <[key := value]> m)).

(** Modelled from the spec: [delete(key)]. *)
Definition kv_del (key : string) : M unit :=
  kv_call (KvDel key) (λ m, (tt, delete key m)).

(** Modelled from the spec: [scanByPrefix(prefix)], the values only. *)
Definition kv_getByPrefix (p : string) : M (list obj) :=
  kv_call (KvGetByPrefix p) (λ m, ((scan p m).*2, m)).
End Store.

(** ** Requests and responses *)

Record request := {
  (** the [Authorization] header, when there is one *)
  authorization : option string;
  (** [c.req.param('id')], for the routes that end in [/:id] *)
  param_id : string;
  (** the body parsed as JSON; [None] when it does not parse, in which case
      [await c.req.json()] throws *)
  body : option jsval
}.

Record response := {
  status : nat;
  (** the value handed to [c.json] *)
  payload : jsval
}.

(** An object literal over a base object: the properties are assigned from
    left to right, a later one replacing an earlier one of the same name. *)
Definition with_props (base : obj) (l : list (string * jsval)) : obj :=
  foldl (λ o p, <[p.1 := p.2]> o) base l.

Definition json (v : jsval) : response := {| status := 200; payload := v |}.
Definition json_error (msg : string) (st : nat) : response :=
  {| status := st; payload := JObj (with_props ∅ [("error", JStr msg)]) |}.

(** [s.split(' ')] *)
Fixpoint split_space (s : string) : list string :=
  match s with
  | EmptyString => [EmptyString]
  | String c r =>
      if Ascii.eqb c " "%char then EmptyString :: split_space r
      else match split_space r with
           | h :: t => String c h :: t
           | [] => [String c EmptyString]
           end
  end.

(** The number [l.length]; an array holds fewer than [2^32] elements. *)
Definition num_of_nat (n : nat) : float :=
  PrimFloat.of_uint63 (Uint63.of_Z (Z.of_nat n)).

(** ** The server *)

Section Server.
Context (E : env).

(** [getUserId]: the second space-separated piece of the header is the
    access token; no header, no such piece or an empty one give [null],
    and so do an error of the provider and a user without identifier. *)
Definition getUserId (r : request) : option string :=
  match authorization r with
  | None => None
  | Some h =>
      match split_space h !! 1%nat with
      | None => None
      | Some accessToken =>
          if bool_decide (accessToken = EmptyString) then None
          else match auth_getUser E accessToken with
               | None => None
               | Some id => if bool_decide (id = EmptyString) then None else Some id
               end
      end
  end.

Definition generateId : M string :=
  λ w, (Ret ("txn_" +:+ random_part E (tick w)), ticked w).

(** [new Date().toISOString()] *)
Definition now : M jsval :=
  λ w, (Ret (JStr (iso_time E (tick w))), ticked w).

(** [await c.req.json()] followed by a destructuring pattern
    [const { ... } = ]: the first throws when the body is not JSON, the
    second when the value is [null]. *)
Definition destructure (r : request) : M jsval :=
  match body r with
  | None => throw
  | Some JNull | Some JUndef => throw
  | Some v => ret v
  end.

Definition unauthorized : response := json_error "Unauthorized" 401.

(** [updateBudgetSpending]: reads the budgets, looks for one of the
    category and does nothing with it; its own failures are swallowed. *)
Definition updateBudgetSpending (userId : string) (category : jsval) (amount : float) : M unit :=
  try_catch
    (budgets ← kv_getByPrefix E (budget_prefix userId);
     match List.find (λ b, strict_eq (fld b "category") category) budgets with
     | Some _ => ret tt
     | None => ret tt
     end)
    (ret tt).

Definition when (b : bool) (m : M unit) : M unit := if b then m else ret tt.

(** *** Transactions *)

Definition get_transactions (r : request) : M response :=
  try_catch
    (match getUserId r with
     | None => ret unauthorized
     | Some userId =>
         transactions ← kv_getByPrefix E (transaction_prefix userId);
         ret (json (JArr (JObj <$> transactions)))
     end)
    (ret (json_error "Failed to fetch transactions" 500)).

Definition post_transactions (r : request) : M response :=
  try_catch
    (match getUserId r with
     | None => ret unauthorized
     | Some userId =>
         b ← destructure r;
         let amount := prop b "amount" in
         let type := prop b "type" in
         let category := prop b "category" in
         let description := prop b "description" in
         let date := prop b "date" in
         id ← generateId;
         createdAt ← now;
         let transaction :=
           with_props ∅ [("id", JStr id);
                         ("amount", JNum (parseFloat E amount));
                         ("type", type);
                         ("category", category);
                         ("description", description);
                         ("date", date);
                         ("userId", JStr userId);
                         ("createdAt", createdAt)] in
         kv_set E (transaction_key userId id) transaction;;
         when (strict_eq type (JStr "expense"))
           (updateBudgetSpending userId category (parseFloat E amount));;
         ret (json (JObj transaction))
     end)
    (ret (json_error "Failed to create transaction" 500)).

Definition put_transactions (r : request) : M response :=
  try_catch
    (match getUserId r with
     | None => ret unauthorized
     | Some userId =>
         let id := param_id r in
         b ← destructure r;
         let amount := prop b "amount" in
         let type := prop b "type" in
         let category := prop b "category" in
         let description := prop b "description" in
         let date := prop b "date" in
         existing ← kv_get E (transaction_key userId id);
         match existing with
         | None => ret (json_error "Transaction not found" 404)
         | Some existingTransaction =>
             updatedAt ← now;
             let updatedTransaction :=
               with_props existingTransaction
                 [("amount", JNum (parseFloat E amount));
                  ("type", type);
                  ("category", category);
                  ("description", description);
                  ("date", date);
                  ("updatedAt", updatedAt)] in
             kv_set E (transaction_key userId id) updatedTransaction;;
             when (strict_eq (fld existingTransaction "type") (JStr "expense"))
               (updateBudgetSpending userId (fld existingTransaction "category")
                  (- to_number E (fld existingTransaction "amount")));;
             when (strict_eq type (JStr "expense"))
               (updateBudgetSpending userId category (parseFloat E amount));;
             ret (json (JObj updatedTransaction))
         end
     end)
    (ret (json_error "Failed to update transaction" 500)).

Definition delete_transactions (r : request) : M response :=
  try_catch
    (match getUserId r with
     | None => ret unauthorized
     | Some userId =>
         let id := param_id r in
         existing ← kv_get E (transaction_key userId id);
         match existing with
         | None => ret (json_error "Transaction not found" 404)
         | Some existingTransaction =>
             kv_del E (transaction_key userId id);;
             when (strict_eq (fld existingTransaction "type") (JStr "expense"))
               (updateBudgetSpending userId (fld existingTransaction "category")
                  (- to_number E (fld existingTransaction "amount")));;
             ret (json (JObj (with_props ∅ [("success", JBool true)])))
         end
     end)
    (ret (json_error "Failed to delete transaction" 500)).

(** *** Budgets *)

(** The [reduce] of [GET /budgets]: over the expenses of the budget's
    category, in the order of the scan, starting from [0]. *)
Definition categorySpending (transactions : list obj) (budget : obj) : jsval :=
  foldl (λ sum t, js_add E sum (fld t "amount")) (JNum 0)
    (List.filter
       (λ t, strict_eq (fld t "type") (JStr "expense")
             && strict_eq (fld t "category") (fld budget "category"))
       transactions).

Definition with_spending (transactions : list obj) (budget : obj) : obj :=
  with_props budget
    [("spent", categorySpending transactions budget);
     ("remaining", js_sub E (fld budget "amount") (categorySpending transactions budget))].

Definition get_budgets (r : request) : M response :=
  try_catch
    (match getUserId r with
     | None => ret unauthorized
     | Some userId =>
         budgets ← kv_getByPrefix E (budget_prefix userId);
         transactions ← kv_getByPrefix E (transaction_prefix userId);
         let budgetsWithSpending := with_spending transactions <$> budgets in
         ret (json (JArr (JObj <$> budgetsWithSpending)))
     end)
    (ret (json_error "Failed to fetch budgets" 500)).

Definition post_budgets (r : request) : M response :=
  try_catch
    (match getUserId r with
     | None => ret unauthorized
     | Some userId =>
         b ← destructure r;
         let category := prop b "category" in
         let amount := prop b "amount" in
         let period := prop b "period" in
         id ← generateId;
         createdAt ← now;
         let budget :=
           with_props ∅ [("id", JStr id);
                         ("category", category);
                         ("amount", JNum (parseFloat E amount));
                         ("period", period);
                         ("userId", JStr userId);
                         ("createdAt", createdAt)] in
         kv_set E (budget_key userId id) budget;;
         ret (json (JObj budget))
     end)
    (ret (json_error "Failed to create budget" 500)).

Definition put_budgets (r : request) : M response :=
  try_catch
    (match getUserId r with
     | None => ret unauthorized
     | Some userId =>
         let id := param_id r in
         b ← destructure r;
         let category := prop b "category" in
         let amount := prop b "amount" in
         let period := prop b "period" in
         existing ← kv_get E (budget_key userId id);
         match existing with
         | None => ret (json_error "Budget not found" 404)
         | Some existingBudget =>
             updatedAt ← now;
             let updatedBudget :=
               with_props existingBudget
                 [("category", category);
                  ("amount", JNum (parseFloat E amount));
                  ("period", period);
                  ("updatedAt", updatedAt)] in
             kv_set E (budget_key userId id) updatedBudget;;
             ret (json (JObj updatedBudget))
         end
     end)
    (ret (json_error "Failed to update budget" 500)).

Definition delete_budgets (r : request) : M response :=
  try_catch
    (match getUserId r with
     | None => ret unauthorized
     | Some userId =>
         let id := param_id r in
         existing ← kv_get E (budget_key userId id);
         match existing with
         | None => ret (json_error "Budget not found" 404)
         | Some _ =>
             kv_del E (budget_key userId id);;
             ret (json (JObj (with_props ∅ [("success", JBool true)])))
         end
     end)
    (ret (json_error "Failed to delete budget" 500)).

(** *** Data management *)

Definition export_data (r : request) : M response :=
  try_catch
    (match getUserId r with
     | None => ret unauthorized
     | Some userId =>
         transactions ← kv_getByPrefix E (transaction_prefix userId);
         budgets ← kv_getByPrefix E (budget_prefix userId);
         exportDate ← now;
         ret (json (JObj (with_props ∅
                [("transactions", JArr (JObj <$> transactions));
                 ("budgets", JArr (JObj <$> budgets));
                 ("exportDate", exportDate);
                 ("version", JStr "1.0")])))
     end)
    (ret (json_error "Failed to export data" 500)).

(** What [for (const x of v)] runs over: the elements of an array, the
    characters of a string; any other JSON value is not iterable. *)
Definition iterate (v : jsval) : M (list jsval) :=
  match v with
  | JArr l => ret l
  | JStr s => ret (chars s)
  | _ => throw
  end.

(** [v.length] *)
Definition js_length (v : jsval) : jsval :=
  match v with
  | JArr l => JNum (num_of_nat (length l))
  | JStr s => JNum (num_of_nat (String.length s))
  | _ => JUndef
  end.

(** The default [= []] of a destructuring pattern. *)
Definition or_empty (v : jsval) : jsval :=
  match v with
  | JUndef => JArr []
  | _ => v
  end.

Definition import_item (key : string → string → string) (userId : string) (item : jsval) : M unit :=
  id ← generateId;
  importedAt ← now;
  let newItem :=
    with_props (spread item)
      [("id", JStr id); ("userId", JStr userId); ("importedAt", importedAt)] in
  kv_set E (key userId id) newItem.

Definition import_data (r : request) : M response :=
  try_catch
    (match getUserId r with
     | None => ret unauthorized
     | Some userId =>
         b ← destructure r;
         let transactions := or_empty (prop b "transactions") in
         let budgets := or_empty (prop b "budgets") in
         ts ← iterate transactions;
         for_of ts (import_item transaction_key userId);;
         bs ← iterate budgets;
         for_of bs (import_item budget_key userId);;
         ret (json (JObj (with_props ∅
                [("success", JBool true);
                 ("imported", JObj (with_props ∅
                    [("transactions", js_length transactions);
                     ("budgets", js_length budgets)]))])))
     end)
    (ret (json_error "Failed to import data" 500)).

Definition delete_account (r : request) : M response :=
  try_catch
    (match getUserId r with
     | None => ret unauthorized
     | Some userId =>
         transactions ← kv_getByPrefix E (transaction_prefix userId);
         budgets ← kv_getByPrefix E (budget_prefix userId);
         for_of transactions
           (λ transaction, kv_del E (transaction_key userId (to_string E (fld transaction "id"))));;
         for_of budgets
           (λ budget, kv_del E (budget_key userId (to_string E (fld budget "id"))));;
         ret (json (JObj (with_props ∅ [("success", JBool true)])))
     end)
    (ret (json_error "Failed to delete account data" 500)).

(** *** Routes without a bearer credential *)

Definition signup (r : request) : M response :=
  try_catch
    (b ← destructure r;
     match auth_createUser E (prop b "email") (prop b "password") (prop b "name") with
     | inl message => ret (json_error message 400)
     | inr user => ret (json (JObj (with_props ∅ [("user", user)])))
     end)
    (ret (json_error "Internal server error during signup" 500)).

Definition health (r : request) : M response :=
  timestamp ← now;
  ret (json (JObj (with_props ∅ [("status", JStr "healthy"); ("timestamp", timestamp)]))).

(** *** Routing *)

Inductive route :=
| Signup
| GetTransactions | PostTransactions | PutTransactions | DeleteTransactions
| GetBudgets | PostBudgets | PutBudgets | DeleteBudgets
| Export | Import | DeleteAccount
| Health.

Definition handle (rt : route) : request → M response :=
  match rt with
  | Signup => signup
  | GetTransactions => get_transactions
  | PostTransactions => post_transactions
  | PutTransactions => put_transactions
  | DeleteTransactions => delete_transactions
  | GetBudgets => get_budgets
  | PostBudgets => post_budgets
  | PutBudgets => put_budgets
  | DeleteBudgets => delete_budgets
  | Export => export_data
  | Import => import_data
  | DeleteAccount => delete_account
  | Health => health
  end.
End Server.

(** ** A concrete environment

    Two users, [alice] and [bob], and a third identifier, [alice:shared],
    that extends the first one after a colon.  The store never fails, the
    n-th identifier is [txn_n].  The requests below carry JSON numbers and
    no string is ever added to a number, so that the three conversions of
    the runtime are not reached; they are given constant answers. *)

Definition sample_users (token : string) : option string :=
  if bool_decide (token = "token-alice") then Some "alice"
  else if bool_decide (token = "token-bob") then Some "bob"
  else if bool_decide (token = "token-shared") then Some "alice:shared"
  else None.

Definition sample_env : env := {|
  parseFloat_string := λ _, nan;
  Number_toString := λ _, "NaN";
  StringToNumber := λ _, nan;
  auth_getUser := sample_users;
  auth_createUser := λ _ _ _, inl "Signups not allowed for this instance";
  random_part := pretty;
  iso_time := λ n, "2024-05-01T10:00:00." +:+ pretty n +:+ "Z";
  kv_fails := λ _, false
|}.

Definition empty_world : world := {| kv := ∅; trace := []; tick := 0 |}.

Definition bearer (token : string) (id : string) (b : option jsval) : request :=
  {| authorization := Some ("Bearer " +:+ token); param_id := id; body := b |}.

Definition anonymous (id : string) (b : option jsval) : request :=
  {| authorization := None; param_id := id; body := b |}.

(** The response and the world a handler leaves. *)
Definition answer {A} (m : M A) (w : world) : outcome A := (m w).1.
Definition after {A} (m : M A) (w : world) : world := (m w).2.

(** ** Strings and keys *)

(** No character of [s] is [c]; in particular, no character is a colon. *)
Fixpoint no_char (c : ascii) (s : string) : bool :=
  match s with
  | EmptyString => true
  | String x r => negb (Ascii.eqb x c) && no_char c r
  end.

Definition no_colon (s : string) : bool := no_char ":" s.

(** ** Reasoning about the monad

    [wp m Q w]: running [m] from the world [w] ends, returning or
    throwing, in an outcome and a world that satisfy [Q]. *)

Definition wp {A} (m : M A) (Q : outcome A → world → Prop) (w : world) : Prop :=
  Q (answer m w) (after m w).

(** What a continuation owes after a step that may have thrown. *)
Definition wp_next {A B} (f : A → M B) (Q : outcome B → world → Prop)
    (o : outcome A) (w : world) : Prop :=
  match o with
  | Ret a => wp (f a) Q w
  | Throw => Q Throw w
  end.

Definition wp_handler {A} (h : M A) (Q : outcome A → world → Prop)
    (o : outcome A) (w : world) : Prop :=
  match o with
  | Ret a => Q (Ret a) w
  | Throw => wp h Q w
  end.

(** ** Vocabulary of the properties *)

(** The store answers every call. *)
Definition available (E : env) : Prop := ∀ n, kv_fails E n = false.

(** The routes that ask for a bearer credential: all but [/signup] and
    [/health]. *)
Definition protected (rt : route) : bool :=
  match rt with
  | Signup | Health => false
  | _ => true
  end.

(** Every value stored under a budget key, of any user, is the same in
    [w'] as in [w]. *)
Definition budget_entries_kept (w w' : world) : Prop :=
  ∀ u id, kv w' !! budget_key u id = kv w !! budget_key u id.

(** The request carries a body that parses as JSON and that a
    destructuring pattern accepts. *)
Definition json_body (r : request) (v : jsval) : Prop :=
  body r = Some v ∧ v ≠ JNull ∧ v ≠ JUndef.

(** The handler answered with status 200. *)
Definition succeeded (o : outcome response) : bool :=
  match o with
  | Ret resp => bool_decide (status resp = 200)
  | Throw => false
  end.

(** A JSON object written as the list of its properties. *)
Definition object (l : list (string * jsval)) : jsval := JObj (with_props ∅ l).

(** The field [f] of the entity stored under [key], if there is one. *)
Definition stored_field (w : world) (key f : string) : option jsval :=
  (λ t, fld t f) <$> kv w !! key.

(** The object literals of the two transaction writers. *)
Definition new_transaction (E : env) (userId : string) (v : jsval)
    (id : string) (createdAt : jsval) : obj :=
  with_props ∅
    [("id", JStr id);
     ("amount", JNum (parseFloat E (prop v "amount")));
     ("type", prop v "type");
     ("category", prop v "category");
     ("description", prop v "description");
     ("date", prop v "date");
     ("userId", JStr userId);
     ("createdAt", createdAt)].

Definition merged_transaction (E : env) (existingTransaction : obj) (v : jsval)
    (updatedAt : jsval) : obj :=
  with_props existingTransaction
    [("amount", JNum (parseFloat E (prop v "amount")));
     ("type", prop v "type");
     ("category", prop v "category");
     ("description", prop v "description");
     ("date", prop v "date");
     ("updatedAt", updatedAt)].

(** The fields an update assigns. *)
Definition assigned_by_update : list string :=
  ["amount"; "type"; "category"; "description"; "date"; "updatedAt"].

(** An expense of five units entered with a minus sign. *)
Definition negative_expense : request :=
  bearer "token-alice" EmptyString
    (Some (object [("amount", JNum (-5)); ("type", JStr "expense");
                   ("category", JStr "Food"); ("description", JStr "refund");
                   ("date", JStr "2024-05-01")])).

(** The world after [alice] has entered [negative_expense] in the empty
    world, and a request that updates the transaction then created. *)
Definition one_transaction : world :=
  after (post_transactions sample_env negative_expense) empty_world.

Definition update_of_first : request :=
  bearer "token-alice" "txn_0"
    (Some (object [("amount", JNum 12.5); ("type", JStr "income");
                   ("category", JStr "Salary"); ("description", JStr "bonus");
                   ("date", JStr "2024-05-02")])).

(** *** Budget aggregation, as the contract words it *)

(** The entities a user owns: the values the scan of the user's prefix
    answers, in the order of the scan. *)
Definition user_transactions (userId : string) (w : world) : list obj :=
  (scan (transaction_prefix userId) (kv w)).*2.
Definition user_budgets (userId : string) (w : world) : list obj :=
  (scan (budget_prefix userId) (kv w)).*2.

(** The amount of the entity is a number, as create and update store it. *)
Definition numeric_amount (o : obj) : bool :=
  match fld o "amount" with
  | JNum _ => true
  | _ => false
  end.

Definition amount_of (o : obj) : float :=
  match fld o "amount" with
  | JNum x => x
  | _ => nan
  end.

(** [t] is an expense in the category of [budget]. *)
Definition expense_of (budget t : obj) : bool :=
  strict_eq (fld t "type") (JStr "expense")
  && strict_eq (fld t "category") (fld budget "category").

(** The sum of a list of numbers, from the left. *)
Definition total (l : list float) : float := foldl PrimFloat.add 0%float l.

Definition spent (transactions : list obj) (budget : obj) : float :=
  total (amount_of <$> List.filter (expense_of budget) transactions).

Definition remaining (transactions : list obj) (budget : obj) : float :=
  (amount_of budget - spent transactions budget)%float.

Definition enriched (transactions : list obj) (budget : obj) : obj :=
  <["remaining" := JNum (remaining transactions budget)]>
    (<["spent" := JNum (spent transactions budget)]> budget).

(** *** The scenario of the Food budget *)

Definition food_budget : request :=
  bearer "token-alice" EmptyString
    (Some (object [("category", JStr "Food"); ("amount", JNum 200);
                   ("period", JStr "monthly")])).

Definition food_expense (amount : float) : request :=
  bearer "token-alice" EmptyString
    (Some (object [("amount", JNum amount); ("type", JStr "expense");
                   ("category", JStr "Food"); ("description", JStr "groceries");
                   ("date", JStr "2024-05-01")])).

Definition list_budgets : request := bearer "token-alice" EmptyString None.

(** The budget gets the identifier [txn_0], the two expenses [txn_2] and
    [txn_4] (every entity draws an identifier and then a timestamp). *)
Definition with_budget : world :=
  after (post_budgets sample_env food_budget) empty_world.
Definition with_first_expense : world :=
  after (post_transactions sample_env (food_expense 50)) with_budget.
Definition with_second_expense : world :=
  after (post_transactions sample_env (food_expense 80)) with_first_expense.
Definition without_first_expense : world :=
  after (delete_transactions sample_env (bearer "token-alice" "txn_2" None))
    with_second_expense.

(** The figures of a list of budgets: category, limit, spent, remaining. *)
Definition figures (o : outcome response) : list (jsval * jsval * jsval * jsval) :=
  match o with
  | Ret {| payload := JArr l |} =>
      (λ b, (prop b "category", prop b "amount", prop b "spent", prop b "remaining")) <$> l
  | _ => []
  end.

(** *** Import *)

(** The entity import writes for [item]. *)
Definition imported_item (userId : string) (item : jsval) (id : string)
    (importedAt : jsval) : obj :=
  with_props (spread item)
    [("id", JStr id); ("userId", JStr userId); ("importedAt", importedAt)].

(** The keys and entities a loop of import writes for [items], in order,
    when the loop starts with [n] identifiers and timestamps drawn: each
    item draws an identifier and then a timestamp. *)
Fixpoint import_writes (E : env) (key : string → string → string)
    (userId : string) (n : nat) (items : list jsval) : list (string * obj) :=
  match items with
  | [] => []
  | item :: rest =>
      let id := "txn_" +:+ random_part E n in
      (key userId id, imported_item userId item id (JStr (iso_time E (S n))))
      :: import_writes E key userId (S (S n)) rest
  end.

(** The world after the writes [l] have all succeeded. *)
Definition write_all (l : list (string * obj)) (w : world) : world :=
  {| kv := foldl (λ m e, <[e.1 := e.2]> m) (kv w) l;
     trace := trace w ++ ((λ e, KvSet e.1 e.2) <$> l);
     tick := tick w + 2 * length l |}.

(** All the writes of an import of [ts] and [bs] by [userId], started with
    [n] identifiers and timestamps drawn: the transactions, then the
    budgets. *)
Definition all_import_writes (E : env) (userId : string) (n : nat)
    (ts bs : list jsval) : list (string * obj) :=
  import_writes E transaction_key userId n ts
  ++ import_writes E budget_key userId (n + 2 * length ts) bs.

(** The answer of a successful import of [n] transactions and [m] budgets. *)
Definition import_report (n m : nat) : response :=
  json (object [("success", JBool true);
                ("imported", object [("transactions", JNum (num_of_nat n));
                                     ("budgets", JNum (num_of_nat m))])]).

(** [e] is a write of import on behalf of [userId]: its key is built for
    [userId] with a generated identifier, and the entity carries that
    identifier and [userId]. *)
Definition written_for (E : env) (userId : string) (e : string * obj) : Prop :=
  ∃ n, let id := "txn_" +:+ random_part E n in
       (e.1 = transaction_key userId id ∨ e.1 = budget_key userId id)
       ∧ e.2 !! "id" = Some (JStr id)
       ∧ e.2 !! "userId" = Some (JStr userId).

(** An import by [bob] of two transactions, the first of which claims an
    identifier and an owner of its own, and of one budget. *)
Definition sample_transactions : list jsval :=
  [object [("id", JStr "txn_mine"); ("userId", JStr "alice");
           ("amount", JNum 50); ("type", JStr "expense");
           ("category", JStr "Food"); ("description", JStr "lunch");
           ("date", JStr "2024-04-30")];
   object [("amount", JNum 1200); ("type", JStr "income");
           ("category", JStr "Salary"); ("description", JStr "April");
           ("date", JStr "2024-04-30")]].

Definition sample_budgets : list jsval :=
  [object [("category", JStr "Food"); ("amount", JNum 200);
           ("period", JStr "monthly")]].

Definition sample_backup : jsval :=
  object [("transactions", JArr sample_transactions);
          ("budgets", JArr sample_budgets)].

Definition sample_import : request :=
  bearer "token-bob" EmptyString (Some sample_backup).

(** *** Export and import *)

(** The fields of a transaction, and of a budget, that a round trip has to
    keep. *)
Definition transaction_fields : list string :=
  ["amount"; "category"; "type"; "description"; "date"].
Definition budget_fields : list string := ["category"; "amount"; "period"].

(** The values of the fields [fields] of an entity. *)
Definition view (fields : list string) (o : obj) : list jsval := fld o <$> fields.

(** The user has no transaction and no budget. *)
Definition empty_account (userId : string) (w : world) : Prop :=
  user_transactions userId w = [] ∧ user_budgets userId w = [].

(** No two draws of the random source give the same text. *)
Definition fresh_identifiers (E : env) : Prop :=
  ∀ i j, random_part E i = random_part E j → i = j.

(** The document a handler answered with. *)
Definition payload_of (o : outcome response) : jsval :=
  match o with
  | Ret resp => payload resp
  | Throw => JUndef
  end.

(** The fields import assigns. *)
Definition assigned_by_import : list string := ["id"; "userId"; "importedAt"].

(** [alice] exports her account with the two Food expenses, and imports
    the exported document into an account that is empty. *)
Definition export_request : request := bearer "token-alice" EmptyString None.

Definition exported_backup : jsval :=
  payload_of (answer (export_data sample_env export_request) with_second_expense).

Definition import_of_backup : request :=
  bearer "token-alice" EmptyString (Some exported_backup).

(** *** Ownership *)

(** [k] is a key of [userId]: [transaction:userId:id] or [budget:userId:id]
    for some [id]. *)
Definition key_of (userId : string) (k : string) : Prop :=
  ∃ id, k = transaction_key userId id ∨ k = budget_key userId id.

(** The store call [op] addresses the keys of [userId]: it reads, writes or
    deletes one of them, or scans one of the two prefixes of [userId]. *)
Definition call_of (userId : string) (op : kvop) : Prop :=
  match op with
  | KvGet k | KvSet k _ | KvDel k => key_of userId k
  | KvGetByPrefix p => p = transaction_prefix userId ∨ p = budget_prefix userId
  end.

(** Since the world [w], only calls of [userId] have been issued. *)
Definition only_calls_of (userId : string) (w w' : world) : Prop :=
  ∃ calls, trace w' = trace w ++ calls ∧ Forall (call_of userId) calls.

(** The user [alice:shared] enters an expense; [alice] lists her
    transactions, and updates [shared:txn_0]. *)
Definition shared_expense : request :=
  bearer "token-shared" EmptyString
    (Some (object [("amount", JNum 30); ("type", JStr "expense");
                   ("category", JStr "Rent"); ("description", JStr "deposit");
                   ("date", JStr "2024-05-03")])).

Definition with_shared_expense : world :=
  after (post_transactions sample_env shared_expense) empty_world.

Definition list_transactions : request := bearer "token-alice" EmptyString None.

Definition update_of_shared : request :=
  bearer "token-alice" "shared:txn_0"
    (Some (object [("amount", JNum 1); ("type", JStr "expense");
                   ("category", JStr "Rent"); ("description", JStr "changed");
                   ("date", JStr "2024-05-04")])).

(** The identity provider issues identifiers without colon. *)
Definition plain_identifiers (E : env) : Prop :=
  ∀ token u, auth_getUser E token = Some u → no_colon u = true.

(** The worlds the server can be in: the empty one, and those a request on
    some route leads to. *)
Inductive reachable (E : env) : world → Prop :=
| reachable_empty : reachable E empty_world
| reachable_step w rt r : reachable E w → reachable E (after (handle E rt r) w).

(** Every entity of the table is stored under a key of some user, whose
    identifier holds no colon and is the [userId] of the entity. *)
Definition owned (m : gmap string obj) : Prop :=
  ∀ k v, m !! k = Some v →
         ∃ u, no_colon u = true ∧ key_of u k ∧ v !! "userId" = Some (JStr u).

(** The environment [sample_env] without the user [alice:shared]. *)
Definition plain_users (token : string) : option string :=
  if bool_decide (token = "token-alice") then Some "alice"
  else if bool_decide (token = "token-bob") then Some "bob"
  else None.

Definition plain_env : env := {|
  parseFloat_string := parseFloat_string sample_env;
  Number_toString := Number_toString sample_env;
  StringToNumber := StringToNumber sample_env;
  auth_getUser := plain_users;
  auth_createUser := auth_createUser sample_env;
  random_part := random_part sample_env;
  iso_time := iso_time sample_env;
  kv_fails := kv_fails sample_env
|}.

Definition plain_world : world :=
  after (handle plain_env PostTransactions negative_expense) empty_world.

(** *** Failures of the store, and whole accounts *)

(** The statuses a handler answers with. *)
Definition status_codes : list nat := [200; 400; 401; 404; 500].

(** The routes that only read: the three [GET] routes of the data, and the
    two routes without credential. *)
Definition reads_only (rt : route) : bool :=
  match rt with
  | GetTransactions | GetBudgets | Export | Signup | Health => true
  | _ => false
  end.

(** The store fails every call. *)
Definition unavailable (E : env) : Prop := ∀ n, kv_fails E n = true.

(** The message of the [catch] of each handler. *)
Definition failure_message (rt : route) : string :=
  match rt with
  | Signup => "Internal server error during signup"
  | GetTransactions => "Failed to fetch transactions"
  | PostTransactions => "Failed to create transaction"
  | PutTransactions => "Failed to update transaction"
  | DeleteTransactions => "Failed to delete transaction"
  | GetBudgets => "Failed to fetch budgets"
  | PostBudgets => "Failed to create budget"
  | PutBudgets => "Failed to update budget"
  | DeleteBudgets => "Failed to delete budget"
  | Export => "Failed to export data"
  | Import => "Failed to import data"
  | DeleteAccount => "Failed to delete account data"
  | Health => EmptyString
  end.

(** The routes whose handler calls the store before anything else it does
    after the body is read: all the protected ones but import, whose first
    call depends on the lists it is given. *)
Definition calls_store_first (rt : route) : bool :=
  match rt with
  | Signup | Health | Import => false
  | _ => true
  end.

(** The routes that read a body. *)
Definition reads_body (rt : route) : bool :=
  match rt with
  | Signup | PostTransactions | PutTransactions | PostBudgets | PutBudgets | Import => true
  | _ => false
  end.

(** The environment [sample_env] with a store that is down. *)
Definition down_env : env := {|
  parseFloat_string := parseFloat_string sample_env;
  Number_toString := Number_toString sample_env;
  StringToNumber := StringToNumber sample_env;
  auth_getUser := auth_getUser sample_env;
  auth_createUser := auth_createUser sample_env;
  random_part := random_part sample_env;
  iso_time := iso_time sample_env;
  kv_fails := λ _, true
|}.


Definition merged_budget (E : env) (existingBudget : obj) (v : jsval)
    (updatedAt : jsval) : obj :=
  with_props existingBudget
    [("category", prop v "category");
     ("amount", JNum (parseFloat E (prop v "amount")));
     ("period", prop v "period");
     ("updatedAt", updatedAt)].

(** The fields an update of a budget assigns. *)
Definition assigned_by_budget_update : list string :=
  ["category"; "amount"; "period"; "updatedAt"].

(** [{success: true}] *)
Definition success_response : response := json (object [("success", JBool true)]).


(** The environment [sample_env] with a store that answers its first call
    and fails all the later ones. *)
Definition flaky_env : env := {|
  parseFloat_string := parseFloat_string sample_env;
  Number_toString := Number_toString sample_env;
  StringToNumber := StringToNumber sample_env;
  auth_getUser := auth_getUser sample_env;
  auth_createUser := auth_createUser sample_env;
  random_part := random_part sample_env;
  iso_time := iso_time sample_env;
  kv_fails := λ n, match n with 0 => false | S _ => true end
|}.

(** The body of a request that has one, [null] otherwise. *)
Definition body_of (r : request) : jsval := default JNull (body r).

(** Requests of [alice] on the entity [id], without body. *)
Definition on_entity (id : string) : request := bearer "token-alice" id None.

(** An update of the Food budget of [with_budget]: the limit is raised. *)
Definition raise_food_budget : request :=
  bearer "token-alice" "txn_0"
    (Some (object [("category", JStr "Food"); ("amount", JNum 250);
                   ("period", JStr "weekly")])).

(** No character of [s] is a space. *)
Definition no_space (s : string) : bool := no_char " " s.

(** What the provider says of an access token: nothing for the empty
    token, and nothing for a user without identifier. *)
Definition resolve (E : env) (accessToken : string) : option string :=
  if bool_decide (accessToken = EmptyString) then None
  else match auth_getUser E accessToken with
       | None => None
       | Some id => if bool_decide (id = EmptyString) then None else Some id
       end.

(** Every entity of the table is stored under a key of some user, whose
    identifier holds no colon, and carries as [id] the entity identifier of
    that key. *)
Definition keyed (m : gmap string obj) : Prop :=
  ∀ k v, m !! k = Some v →
         ∃ u id, no_colon u = true
                 ∧ (k = transaction_key u id ∨ k = budget_key u id)
                 ∧ v !! "id" = Some (JStr id).

(** The keys a deletion of the account deletes for the entities [l]. *)
Definition deleted_keys (E : env) (key : string → string → string)
    (userId : string) (l : list obj) : list string :=
  (λ e, key userId (to_string E (fld e "id"))) <$> l.

(** The table after the keys [ks] are deleted, one after the other. *)
Definition without_keys (ks : list string) (m : gmap string obj) : gmap string obj :=
  foldl (λ m k, delete k m) m ks.

(** The key belongs to the account of [userId]: it starts with one of the
    two prefixes the handlers scan for that user. *)
Definition in_account (userId k : string) : bool :=
  String.prefix (transaction_prefix userId) k || String.prefix (budget_prefix userId) k.

(** A request of [alice] on no entity, without body. *)
Definition by_alice : request := bearer "token-alice" EmptyString None.

(** [alice] holds a budget and two expenses, [bob] one expense. *)
Definition two_accounts : world :=
  after (handle plain_env PostTransactions
           (bearer "token-bob" EmptyString
              (Some (object [("type", JStr "expense"); ("amount", JNum 5);
                             ("category", JStr "Food")]))))
    (after (handle plain_env PostTransactions (food_expense 80))
       (after (handle plain_env PostTransactions (food_expense 50))
          (after (handle plain_env PostBudgets food_budget) empty_world))).

(** What [for (const x of v)] accepts among the JSON values: arrays and
    strings. *)
Definition iterable (v : jsval) : bool :=
  match v with
  | JArr _ | JStr _ => true
  | _ => false
  end.

(** The store serves the first [j] calls made from [w] on and fails the
    next one. *)
Definition fails_at (E : env) (w : world) (j : nat) : Prop :=
  (∀ i, i < j → kv_fails E (length (trace w) + i) = false)
  ∧ kv_fails E (length (trace w) + j) = true.

Definition import_failed : response := json_error "Failed to import data" 500.

(** An import by [bob] whose [budgets] is not a list. *)
Definition import_without_budget_list : request :=
  bearer "token-bob" EmptyString
    (Some (object [("transactions", JArr sample_transactions);
                   ("budgets", JNum 3)])).

(** Imports by [bob]: of a document without entities, and of one whose
    [transactions] is [null]. *)
Definition empty_import : request := bearer "token-bob" EmptyString (Some (object [])).
Definition null_import : request :=
  bearer "token-bob" EmptyString (Some (object [("transactions", JNull)])).




(** *** Amounts that arrive as text *)

(** The environment [sample_env] with the two conversions the scenario
    below meets: the number [0] prints as [0], and the text [050] reads as
    the number [50]. *)
Definition text_env : env := {|
  parseFloat_string := parseFloat_string sample_env;
  Number_toString := λ x, if PrimFloat.eqb x 0 then "0" else Number_toString sample_env x;
  StringToNumber := λ s, if String.eqb s "050" then 50%float else StringToNumber sample_env s;
  auth_getUser := auth_getUser sample_env;
  auth_createUser := auth_createUser sample_env;
  random_part := random_part sample_env;
  iso_time := iso_time sample_env;
  kv_fails := kv_fails sample_env
|}.

(** [alice] imports one Food expense whose amount is the text [50]. *)
Definition text_import : request :=
  bearer "token-alice" EmptyString
    (Some (object [("transactions",
                    JArr [object [("amount", JStr "50"); ("type", JStr "expense");
                                  ("category", JStr "Food")]])])).

(** The Food budget of 200 is created, then the expense is imported. *)
Definition with_text_expense : world :=
  after (handle text_env Import text_import)
    (after (handle text_env PostBudgets food_budget) empty_world).

(** *** Owners and kinds *)

(** The entity is owned by [userId]: it carries that identifier as
    [userId]. *)
Definition owned_by (userId : string) (v : obj) : Prop :=
  v !! "userId" = Some (JStr userId).

(** The kind of the entity stored under a key. *)
Definition transaction_kind (k : string) : bool := String.prefix "transaction:" k.
Definition budget_kind (k : string) : bool := String.prefix "budget:" k.

(** * Properties *)

(** ** Prefixes and keys *)

Lemma prefix_app (p s : string) : String.prefix p (p +:+ s) = true.
Proof.
  induction p as [|c p IH]; simpl.
  - by destruct s.
  - by destruct (ascii_dec c c).
Qed.

Lemma prefix_app_same (a b c : string) :
  String.prefix (a +:+ b) (a +:+ c) = String.prefix b c.
Proof.
  induction a as [|x a IH]; simpl; [done|].
  by destruct (ascii_dec x x).
Qed.

Lemma append_assoc (a b c : string) : (a +:+ b) +:+ c = a +:+ (b +:+ c).
Proof.
  induction a as [|x a IH]; [done|].
  change (String x ((a +:+ b) +:+ c) = String x (a +:+ (b +:+ c))).
  by rewrite IH.
Qed.

Lemma app_inj_same (a b c : string) : a +:+ b = a +:+ c → b = c.
Proof. induction a as [|x a IH]; simpl; [done|]. intros [= H]. auto. Qed.

(** Two identifiers without the separator, each followed by it: one is a
    prefix of the other (whatever follows it) only when they are equal. *)
Lemma prefix_sep_eq (c : ascii) (a b s : string) :
  no_char c a = true → no_char c b = true →
  String.prefix (a +:+ String c EmptyString) (b +:+ String c s) = true → a = b.
Proof.
  revert b. induction a as [|x a IH]; intros [|y b]; simpl.
  - done.
  - intros _ Hb. destruct (ascii_dec c y) as [<-|Hne]; [|done].
    by rewrite Ascii.eqb_refl in Hb.
  - intros Ha _. destruct (ascii_dec x c) as [->|Hne]; [|done].
    by rewrite Ascii.eqb_refl in Ha.
  - intros Ha Hb. apply andb_true_iff in Ha as [_ Ha].
    apply andb_true_iff in Hb as [_ Hb].
    destruct (ascii_dec x y) as [->|Hne]; [|done].
    intros H. f_equal. by apply IH.
Qed.

Lemma prefix_colon_eq (a b s : string) :
  no_colon a = true → no_colon b = true →
  String.prefix (a +:+ ":") (b +:+ ":" +:+ s) = true → a = b.
Proof. apply prefix_sep_eq. Qed.

Lemma transaction_key_prefix (u id : string) :
  String.prefix (transaction_prefix u) (transaction_key u id) = true.
Proof.
  unfold transaction_prefix, transaction_key.
  rewrite !prefix_app_same. apply prefix_app.
Qed.

Lemma budget_key_prefix (u id : string) :
  String.prefix (budget_prefix u) (budget_key u id) = true.
Proof.
  unfold budget_prefix, budget_key.
  rewrite !prefix_app_same. apply prefix_app.
Qed.

Lemma transaction_prefix_owner (a b id : string) :
  no_colon a = true → no_colon b = true →
  String.prefix (transaction_prefix a) (transaction_key b id) = true → a = b.
Proof.
  unfold transaction_prefix, transaction_key. rewrite prefix_app_same.
  apply prefix_colon_eq.
Qed.

Lemma budget_prefix_owner (a b id : string) :
  no_colon a = true → no_colon b = true →
  String.prefix (budget_prefix a) (budget_key b id) = true → a = b.
Proof.
  unfold budget_prefix, budget_key. rewrite prefix_app_same.
  apply prefix_colon_eq.
Qed.

Lemma transaction_key_not_budget (u id u' id' : string) :
  transaction_key u id ≠ budget_key u' id'.
Proof. done. Qed.

Lemma transaction_prefix_not_budget (u u' id' : string) :
  String.prefix (transaction_prefix u) (budget_key u' id') = false.
Proof. done. Qed.

Lemma budget_prefix_not_transaction (u u' id' : string) :
  String.prefix (budget_prefix u) (transaction_key u' id') = false.
Proof. done. Qed.

Lemma transaction_key_inj (u id id' : string) :
  transaction_key u id = transaction_key u id' → id = id'.
Proof.
  unfold transaction_key. intros H.
  by do 3 apply app_inj_same in H.
Qed.

Lemma budget_key_inj (u id id' : string) :
  budget_key u id = budget_key u id' → id = id'.
Proof.
  unfold budget_key. intros H.
  by do 3 apply app_inj_same in H.
Qed.

(** ** Rules of the monad *)

Section Wp.
Context (E : env).

Lemma wp_ret {A} (a : A) Q w : Q (Ret a) w → wp (ret a) Q w.
Proof. done. Qed.

Lemma wp_throw {A} (Q : outcome A → world → Prop) w : Q Throw w → wp throw Q w.
Proof. done. Qed.

Lemma wp_bind {A B} (m : M A) (f : A → M B) Q w :
  wp m (wp_next f Q) w → wp (m ≫= f) Q w.
Proof.
  unfold wp, wp_next, answer, after, mbind, M_bind, bind.
  by destruct (m w) as [[a|] w'].
Qed.

Lemma wp_try_catch {A} (m h : M A) Q w :
  wp m (wp_handler h Q) w → wp (try_catch m h) Q w.
Proof.
  unfold wp, wp_handler, answer, after, try_catch.
  by destruct (m w) as [[a|] w'].
Qed.

Lemma wp_when (b : bool) (m : M unit) Q w :
  (b = true → wp m Q w) → (b = false → Q (Ret tt) w) → wp (when b m) Q w.
Proof. intros H1 H2. destruct b; [exact (H1 eq_refl)|exact (H2 eq_refl)]. Qed.

Lemma wp_generateId Q w :
  Q (Ret ("txn_" +:+ random_part E (tick w))) (ticked w) → wp (generateId E) Q w.
Proof. done. Qed.

Lemma wp_now Q w :
  Q (Ret (JStr (iso_time E (tick w)))) (ticked w) → wp (now E) Q w.
Proof. done. Qed.

Lemma wp_kv_call {A} op (f : gmap string obj → A * gmap string obj) Q w :
  (kv_fails E (length (trace w)) = true → Q Throw (logged op w)) →
  (kv_fails E (length (trace w)) = false →
   Q (Ret (f (kv w)).1) (stored (f (kv w)).2 (logged op w))) →
  wp (kv_call E op f) Q w.
Proof.
  unfold wp, answer, after, kv_call.
  destruct (kv_fails E (length (trace w))); auto.
Qed.

Lemma wp_destructure r Q w :
  (∀ v, body r = Some v → v ≠ JNull → v ≠ JUndef → Q (Ret v) w) →
  ((body r = None ∨ body r = Some JNull ∨ body r = Some JUndef) → Q Throw w) →
  wp (destructure r) Q w.
Proof.
  unfold wp, answer, after, destructure.
  destruct (body r) as [[]|]; simpl; intros H1 H2; auto.
Qed.

Lemma wp_mono {A} (m : M A) (Q Q' : outcome A → world → Prop) w :
  wp m Q w → (∀ o w', Q o w' → Q' o w') → wp m Q' w.
Proof. unfold wp. auto. Qed.

(** A loop keeps an invariant that every round keeps, whether the round
    returns or throws. *)
Lemma wp_for_of {A} (I : world → Prop) (l : list A) (body : A → M unit) w :
  I w →
  (∀ x w', x ∈ l → I w' → wp (body x) (λ _, I) w') →
  wp (for_of l body) (λ _, I) w.
Proof.
  revert w. induction l as [|x l IH]; intros w Hw Hbody; [done|].
  cbn [for_of]. apply wp_bind.
  eapply wp_mono; [apply Hbody; [left|done]|].
  intros [[]|] w' Hw'; cbn [wp_next]; [|done].
  apply IH; [done|]. intros y w'' Hy. apply Hbody. by right.
Qed.
End Wp.

Ltac wp_simpl :=
  cbn [wp_next wp_handler kv trace tick stored logged ticked fst snd].

Ltac wp_step :=
  lazymatch goal with
  | |- wp (try_catch _ _) _ _ => apply wp_try_catch
  | |- wp (mbind _ _) _ _ => apply wp_bind
  | |- wp (ret _) _ _ => apply wp_ret
  | |- wp throw _ _ => apply wp_throw
  | |- wp (generateId _) _ _ => apply wp_generateId
  | |- wp (now _) _ _ => apply wp_now
  | |- wp (kv_call _ _ _) _ _ => apply wp_kv_call; intros ?
  | |- wp (destructure _) _ _ => apply wp_destructure; [intros ? ? ? ?|intros ?]
  | |- wp (when _ _) _ _ => apply wp_when; intros ?
  | |- wp (match ?x with _ => _ end) _ _ => destruct x eqn:?
  end;
  wp_simpl.

Ltac wp_unfold :=
  unfold get_transactions, post_transactions, put_transactions,
    delete_transactions, get_budgets, post_budgets, put_budgets,
    delete_budgets, export_data, import_data, delete_account, signup, health,
    updateBudgetSpending, import_item, kv_get, kv_set, kv_del, kv_getByPrefix;
  cbv zeta.


(** ** Unauthenticated requests *)

Lemma getUserId_no_header E r : authorization r = None → getUserId E r = None.
Proof. unfold getUserId. by intros ->. Qed.

(** C3. On every protected route, a request whose identity does not
    resolve (no [Authorization] header in particular) is answered with
    status 401 and the body [{error: "Unauthorized"}], and the world is
    left as it was: no call of the store has been issued. *)
Theorem unauthorized_without_store_call E rt r w :
  protected rt = true →
  authorization r = None ∨ getUserId E r = None →
  handle E rt r w = (Ret unauthorized, w)
  ∧ status unauthorized = 401
  ∧ payload unauthorized = JObj {["error" := JStr "Unauthorized"]}.
Proof.
  intros Hp Hr.
  assert (getUserId E r = None) as Hnone.
  { destruct Hr as [Hr|Hr]; [by apply getUserId_no_header | done]. }
  split; [|done].
  destruct rt; try discriminate Hp; cbn [handle]; wp_unfold;
    unfold try_catch; by rewrite Hnone.
Qed.

Lemma unauthorized_without_store_call_witness :
  handle sample_env GetBudgets (anonymous EmptyString None) empty_world
    = (Ret unauthorized, empty_world)
  ∧ handle sample_env DeleteAccount (bearer "token-mallory" EmptyString None) empty_world
    = (Ret unauthorized, empty_world).
Proof.
  split.
  - apply (unauthorized_without_store_call sample_env GetBudgets); [reflexivity|].
    left. reflexivity.
  - apply (unauthorized_without_store_call sample_env DeleteAccount); [reflexivity|].
    right. vm_compute. reflexivity.
Defined.

(** ** The budget step of the transaction handlers *)

Lemma budget_entries_kept_refl w w' : kv w' = kv w → budget_entries_kept w w'.
Proof. intros H u id. by rewrite H. Qed.

Lemma budget_entries_kept_set w u id v :
  budget_entries_kept w (stored (<[transaction_key u id := v]> (kv w)) w).
Proof. intros u' id'. cbn [kv stored]. by rewrite lookup_insert_ne. Qed.

Lemma budget_entries_kept_del w u id :
  budget_entries_kept w (stored (delete (transaction_key u id) (kv w)) w).
Proof. intros u' id'. cbn [kv stored]. by rewrite lookup_delete_ne. Qed.

Lemma updateBudgetSpending_kv E u c a w :
  kv (after (updateBudgetSpending E u c a) w) = kv w.
Proof.
  change (wp (updateBudgetSpending E u c a) (λ _ w', kv w' = kv w) w).
  wp_unfold. by repeat wp_step.
Qed.

Ltac kept :=
  intros ? ?; cbn [kv stored logged ticked];
  rewrite ?lookup_insert_ne, ?lookup_delete_ne by done; done.

Lemma post_transactions_budgets E r w :
  budget_entries_kept w (after (post_transactions E r) w).
Proof.
  change (wp (post_transactions E r) (λ _ w', budget_entries_kept w w') w).
  wp_unfold. repeat wp_step; kept.
Qed.

Lemma put_transactions_budgets E r w :
  budget_entries_kept w (after (put_transactions E r) w).
Proof.
  change (wp (put_transactions E r) (λ _ w', budget_entries_kept w w') w).
  wp_unfold. repeat wp_step; kept.
Qed.

Lemma delete_transactions_budgets E r w :
  budget_entries_kept w (after (delete_transactions E r) w).
Proof.
  change (wp (delete_transactions E r) (λ _ w', budget_entries_kept w w') w).
  wp_unfold. repeat wp_step; kept.
Qed.

(** C8. Creating, updating or deleting a transaction, an expense or not,
    changes no budget entry: whatever the request and whatever the outcome,
    the value under every [budget:userId:id] key is the same before and
    after; and the budget step itself, [updateBudgetSpending], leaves the
    whole table as it found it. *)
Theorem transaction_mutations_keep_budgets E r w :
  budget_entries_kept w (after (post_transactions E r) w)
  ∧ budget_entries_kept w (after (put_transactions E r) w)
  ∧ budget_entries_kept w (after (delete_transactions E r) w)
  ∧ ∀ userId category amount,
      kv (after (updateBudgetSpending E userId category amount) w) = kv w.
Proof.
  split; [apply post_transactions_budgets|].
  split; [apply put_transactions_budgets|].
  split; [apply delete_transactions_budgets|].
  intros. apply updateBudgetSpending_kv.
Qed.

(** ** Transactions that are not there *)

Ltac wp_available Hav :=
  wp_step; try (match goal with H : kv_fails _ _ = true |- _ =>
                  by rewrite Hav in H end).

Lemma put_transactions_missing E r w userId v :
  available E → getUserId E r = Some userId → json_body r v →
  kv w !! transaction_key userId (param_id r) = None →
  answer (put_transactions E r) w = Ret (json_error "Transaction not found" 404)
  ∧ kv (after (put_transactions E r) w) = kv w.
Proof.
  intros Hav Hauth (Hbody & Hnull & Hundef) Hmiss.
  change (wp (put_transactions E r)
            (λ o w', o = Ret (json_error "Transaction not found" 404)
                     ∧ kv w' = kv w) w).
  wp_unfold. wp_step. rewrite Hauth. wp_step. wp_step.
  - wp_step. wp_available Hav. rewrite Hmiss. by wp_step.
  - destruct_or!; congruence.
Qed.

Lemma put_transactions_missing_kv E r w userId :
  getUserId E r = Some userId →
  kv w !! transaction_key userId (param_id r) = None →
  kv (after (put_transactions E r) w) = kv w.
Proof.
  intros Hauth Hmiss.
  change (wp (put_transactions E r) (λ _ w', kv w' = kv w) w).
  wp_unfold. wp_step. rewrite Hauth. do 2 wp_step; [|by wp_step].
  do 2 wp_step; [by wp_step|]. rewrite Hmiss. by wp_step.
Qed.

Lemma delete_transactions_missing E r w userId :
  available E → getUserId E r = Some userId →
  kv w !! transaction_key userId (param_id r) = None →
  answer (delete_transactions E r) w = Ret (json_error "Transaction not found" 404)
  ∧ kv (after (delete_transactions E r) w) = kv w.
Proof.
  intros Hav Hauth Hmiss.
  change (wp (delete_transactions E r)
            (λ o w', o = Ret (json_error "Transaction not found" 404)
                     ∧ kv w' = kv w) w).
  wp_unfold. wp_step. rewrite Hauth. wp_step. wp_available Hav.
  rewrite Hmiss. by wp_step.
Qed.

(** The claim C4 as it is written fails on an update without a body: the
    body is read before the store is looked up, and a body that does not
    parse makes the handler answer 500. *)
Lemma put_without_body_answers_500 :
  getUserId sample_env (bearer "token-alice" "txn_never" None) = Some "alice"
  ∧ kv empty_world !! transaction_key "alice" "txn_never" = None
  ∧ answer (put_transactions sample_env (bearer "token-alice" "txn_never" None))
      empty_world
    = Ret (json_error "Failed to update transaction" 500).
Proof. repeat split. Qed.

(** C4, amended.  For an authenticated user and an identifier under which
    the user has no transaction stored, with the store answering: [DELETE]
    answers 404 [{error: "Transaction not found"}]; [PUT] answers the same
    when its body parses as JSON (and is not [null]); and in every case,
    the body of the [PUT] parsing or not, the table is left as it was. *)
Theorem missing_transaction_not_found E r w userId :
  available E →
  getUserId E r = Some userId →
  kv w !! transaction_key userId (param_id r) = None →
  (∀ v, json_body r v →
     answer (put_transactions E r) w
       = Ret (json_error "Transaction not found" 404))
  ∧ kv (after (put_transactions E r) w) = kv w
  ∧ answer (delete_transactions E r) w
      = Ret (json_error "Transaction not found" 404)
  ∧ kv (after (delete_transactions E r) w) = kv w.
Proof.
  intros Hav Hauth Hmiss. split; [|split].
  - intros v Hv. by apply (put_transactions_missing E r w userId v).
  - by apply (put_transactions_missing_kv E r w userId).
  - by apply (delete_transactions_missing E r w userId).
Qed.

Lemma missing_transaction_not_found_witness :
  answer (put_transactions sample_env
            (bearer "token-alice" "txn_never" (Some (object []))))
      empty_world
    = Ret (json_error "Transaction not found" 404)
  ∧ answer (delete_transactions sample_env (bearer "token-alice" "txn_never" None))
      empty_world
    = Ret (json_error "Transaction not found" 404).
Proof.
  split.
  - apply (missing_transaction_not_found sample_env
             (bearer "token-alice" "txn_never" (Some (object [])))
             empty_world "alice") with (v := object []);
      [by intros n|reflexivity|reflexivity|].
    repeat split; discriminate.
  - apply (missing_transaction_not_found sample_env
             (bearer "token-alice" "txn_never" None)
             empty_world "alice"); [by intros n|reflexivity|reflexivity].
Defined.

(** ** What create and update store *)

Lemma post_transactions_succeeded E r w :
  succeeded (answer (post_transactions E r) w) = true →
  ∃ userId v,
    getUserId E r = Some userId ∧ json_body r v
    ∧ let id := "txn_" +:+ random_part E (tick w) in
      let t := new_transaction E userId v id (JStr (iso_time E (S (tick w)))) in
      answer (post_transactions E r) w = Ret (json (JObj t))
      ∧ kv (after (post_transactions E r) w)
        = <[transaction_key userId id := t]> (kv w).
Proof.
  change (wp (post_transactions E r)
    (λ o w', succeeded o = true →
       ∃ userId v,
         getUserId E r = Some userId ∧ json_body r v
         ∧ o = Ret (json (JObj (new_transaction E userId v
                 ("txn_" +:+ random_part E (tick w))
                 (JStr (iso_time E (S (tick w)))))))
         ∧ kv w' = <[transaction_key userId ("txn_" +:+ random_part E (tick w)) :=
                     new_transaction E userId v
                       ("txn_" +:+ random_part E (tick w))
                       (JStr (iso_time E (S (tick w))))]> (kv w)) w).
  wp_unfold. wp_step. destruct (getUserId E r) as [userId|] eqn:Hauth;
    [|by wp_step].
  repeat wp_step; try done; intros _; by exists userId, v.
Qed.

Lemma put_transactions_succeeded E r w :
  succeeded (answer (put_transactions E r) w) = true →
  ∃ userId v existingTransaction,
    getUserId E r = Some userId ∧ json_body r v
    ∧ kv w !! transaction_key userId (param_id r) = Some existingTransaction
    ∧ let t := merged_transaction E existingTransaction v (JStr (iso_time E (tick w))) in
      answer (put_transactions E r) w = Ret (json (JObj t))
      ∧ kv (after (put_transactions E r) w)
        = <[transaction_key userId (param_id r) := t]> (kv w).
Proof.
  change (wp (put_transactions E r)
    (λ o w', succeeded o = true →
       ∃ userId v ex,
         getUserId E r = Some userId ∧ json_body r v
         ∧ kv w !! transaction_key userId (param_id r) = Some ex
         ∧ o = Ret (json (JObj (merged_transaction E ex v (JStr (iso_time E (tick w))))))
         ∧ kv w' = <[transaction_key userId (param_id r) :=
                     merged_transaction E ex v (JStr (iso_time E (tick w)))]> (kv w)) w).
  wp_unfold. wp_step. destruct (getUserId E r) as [userId|] eqn:Hauth;
    [|by wp_step].
  do 2 wp_step; [|by wp_step].
  do 2 wp_step; [by wp_step|].
  destruct (kv w !! transaction_key userId (param_id r)) as [ex|] eqn:Hex;
    [|by wp_step].
  repeat wp_step; try done; intros _; by exists userId, v, ex.
Qed.

Lemma negative_is_not_zero (x : float) : (x <? 0)%float = true → (x =? 0)%float = false.
Proof.
  rewrite FloatAxioms.ltb_spec, FloatAxioms.eqb_spec. unfold SFltb, SFeqb.
  by destruct (SFcompare _ _) as [[]|].
Qed.

Lemma parseFloat_negative E (x : float) :
  (x <? 0)%float = true → parseFloat E (JNum x) = x.
Proof. intros H. unfold parseFloat. by rewrite negative_is_not_zero. Qed.

Lemma lookup_merged_other E ex v u f :
  f ∉ assigned_by_update → merged_transaction E ex v u !! f = ex !! f.
Proof.
  intros Hf. unfold merged_transaction, with_props. cbn [foldl fst snd].
  rewrite !lookup_insert_ne; [done|..]; intros <-; apply Hf;
    by apply (bool_decide_unpack _).
Qed.

(** The claim C6 as it is written fails: an amount sent with a minus sign
    is accepted and stored with its sign. *)
Lemma negative_amount_is_stored_negative :
  succeeded (answer (post_transactions sample_env negative_expense) empty_world) = true
  ∧ stored_field (after (post_transactions sample_env negative_expense) empty_world)
      (transaction_key "alice" "txn_0") "amount" = Some (JNum (-5))
  ∧ (-5 <? 0)%float = true.
Proof. repeat split. Qed.

(** C6, amended.  A transaction that create or update accepts is stored
    with the amount [parseFloat] reads in the request and with the type the
    request carries, each in its own field; nothing looks at the sign: a
    negative number is stored as it was sent. *)
Theorem stored_amount_is_parseFloat E r w :
  (succeeded (answer (post_transactions E r) w) = true →
   ∃ userId v id,
     getUserId E r = Some userId ∧ json_body r v
     ∧ stored_field (after (post_transactions E r) w)
         (transaction_key userId id) "amount"
       = Some (JNum (parseFloat E (prop v "amount")))
     ∧ stored_field (after (post_transactions E r) w)
         (transaction_key userId id) "type"
       = Some (prop v "type"))
  ∧ (succeeded (answer (put_transactions E r) w) = true →
     ∃ userId v,
       getUserId E r = Some userId ∧ json_body r v
       ∧ stored_field (after (put_transactions E r) w)
           (transaction_key userId (param_id r)) "amount"
         = Some (JNum (parseFloat E (prop v "amount")))
       ∧ stored_field (after (put_transactions E r) w)
           (transaction_key userId (param_id r)) "type"
         = Some (prop v "type"))
  ∧ (∀ x : float, (x <? 0)%float = true → parseFloat E (JNum x) = x).
Proof.
  split; [|split].
  - intros Hok.
    destruct (post_transactions_succeeded E r w Hok)
      as (userId & v & Hauth & Hbody & _ & Hkv).
    exists userId, v, ("txn_" +:+ random_part E (tick w)).
    do 2 (split; [done|]).
    unfold stored_field. rewrite Hkv, lookup_insert_eq.
    unfold new_transaction, with_props, fld. cbn [foldl fst snd fmap option_fmap option_map].
    split; by simplify_map_eq.
  - intros Hok.
    destruct (put_transactions_succeeded E r w Hok)
      as (userId & v & ex & Hauth & Hbody & _ & _ & Hkv).
    exists userId, v.
    do 2 (split; [done|]).
    unfold stored_field. rewrite Hkv, lookup_insert_eq.
    unfold merged_transaction, with_props, fld. cbn [foldl fst snd fmap option_fmap option_map].
    split; by simplify_map_eq.
  - apply parseFloat_negative.
Qed.

Lemma stored_amount_is_parseFloat_witness :
  ∃ userId v id,
    getUserId sample_env negative_expense = Some userId
    ∧ json_body negative_expense v
    ∧ stored_field (after (post_transactions sample_env negative_expense) empty_world)
        (transaction_key userId id) "amount"
      = Some (JNum (parseFloat sample_env (prop v "amount")))
    ∧ stored_field (after (post_transactions sample_env negative_expense) empty_world)
        (transaction_key userId id) "type"
      = Some (prop v "type").
Proof.
  apply (stored_amount_is_parseFloat sample_env negative_expense empty_world).
  vm_compute. reflexivity.
Defined.

(** ** Updates *)

(** C10. A successful update of a transaction found the entity under the
    caller's key for the identifier of the route and stores, under that same
    key, the merge of the request over it: [amount], [type], [category],
    [description] and [date] are those of the request, [updatedAt] is the
    time of the update, and every other field, [id], [userId] and
    [createdAt] among them, is as it was. *)
Theorem update_merges_over_existing E r w :
  succeeded (answer (put_transactions E r) w) = true →
  ∃ userId v existingTransaction t,
    getUserId E r = Some userId ∧ json_body r v
    ∧ kv w !! transaction_key userId (param_id r) = Some existingTransaction
    ∧ answer (put_transactions E r) w = Ret (json (JObj t))
    ∧ kv (after (put_transactions E r) w)
      = <[transaction_key userId (param_id r) := t]> (kv w)
    ∧ t !! "id" = existingTransaction !! "id"
    ∧ t !! "userId" = existingTransaction !! "userId"
    ∧ t !! "createdAt" = existingTransaction !! "createdAt"
    ∧ (∀ f, f ∉ assigned_by_update → t !! f = existingTransaction !! f)
    ∧ t !! "amount" = Some (JNum (parseFloat E (prop v "amount")))
    ∧ t !! "type" = Some (prop v "type")
    ∧ t !! "category" = Some (prop v "category")
    ∧ t !! "description" = Some (prop v "description")
    ∧ t !! "date" = Some (prop v "date")
    ∧ t !! "updatedAt" = Some (JStr (iso_time E (tick w))).
Proof.
  intros Hok.
  destruct (put_transactions_succeeded E r w Hok)
    as (userId & v & ex & Hauth & Hbody & Hex & Hans & Hkv).
  exists userId, v, ex, (merged_transaction E ex v (JStr (iso_time E (tick w)))).
  do 5 (split; [done|]).
  do 3 (split; [by apply lookup_merged_other, (bool_decide_unpack _)|]).
  split; [intros f; apply lookup_merged_other|].
  unfold merged_transaction, with_props. cbn [foldl fst snd].
  repeat split; by simplify_map_eq.
Qed.

Lemma update_merges_over_existing_witness :
  ∃ userId v existingTransaction t,
    getUserId sample_env update_of_first = Some userId
    ∧ json_body update_of_first v
    ∧ kv one_transaction !! transaction_key userId (param_id update_of_first)
      = Some existingTransaction
    ∧ answer (put_transactions sample_env update_of_first) one_transaction
      = Ret (json (JObj t))
    ∧ kv (after (put_transactions sample_env update_of_first) one_transaction)
      = <[transaction_key userId (param_id update_of_first) := t]> (kv one_transaction)
    ∧ t !! "id" = existingTransaction !! "id"
    ∧ t !! "userId" = existingTransaction !! "userId"
    ∧ t !! "createdAt" = existingTransaction !! "createdAt"
    ∧ (∀ f, f ∉ assigned_by_update → t !! f = existingTransaction !! f)
    ∧ t !! "amount" = Some (JNum (parseFloat sample_env (prop v "amount")))
    ∧ t !! "type" = Some (prop v "type")
    ∧ t !! "category" = Some (prop v "category")
    ∧ t !! "description" = Some (prop v "description")
    ∧ t !! "date" = Some (prop v "date")
    ∧ t !! "updatedAt" = Some (JStr (iso_time sample_env (tick one_transaction))).
Proof.
  apply (update_merges_over_existing sample_env update_of_first one_transaction).
  vm_compute. reflexivity.
Defined.

(** ** Budget aggregation *)

Lemma js_add_numbers E (x y : float) : js_add E (JNum x) (JNum y) = JNum (x + y).
Proof. reflexivity. Qed.

Lemma amount_of_numeric (o : obj) :
  numeric_amount o → fld o "amount" = JNum (amount_of o).
Proof. unfold numeric_amount, amount_of. by destruct (fld o "amount"). Qed.

Lemma reduce_numbers E (p : obj → bool) (transactions : list obj) (acc : float) :
  Forall numeric_amount transactions →
  foldl (λ sum t, js_add E sum (fld t "amount")) (JNum acc) (List.filter p transactions)
  = JNum (foldl PrimFloat.add acc (amount_of <$> List.filter p transactions)).
Proof.
  intros Hnum. revert acc.
  induction Hnum as [|t transactions Ht _ IH]; intros acc; [done|].
  cbn [List.filter]. destruct (p t); [|apply IH].
  cbn [foldl fmap list_fmap]. rewrite (amount_of_numeric t Ht), js_add_numbers.
  apply IH.
Qed.

Lemma categorySpending_numeric E transactions budget :
  Forall numeric_amount transactions →
  categorySpending E transactions budget = JNum (spent transactions budget).
Proof. intros Hnum. unfold categorySpending, spent, total. by apply reduce_numbers. Qed.

Lemma with_spending_numeric E transactions budget :
  Forall numeric_amount transactions → numeric_amount budget →
  with_spending E transactions budget = enriched transactions budget.
Proof.
  intros Hts Hb. unfold with_spending, enriched, remaining, with_props.
  cbn [foldl fst snd].
  rewrite (categorySpending_numeric E _ _ Hts).
  unfold js_sub. by rewrite (amount_of_numeric budget Hb).
Qed.

Lemma get_budgets_available E r w userId :
  available E → getUserId E r = Some userId →
  answer (get_budgets E r) w
  = Ret (json (JArr (JObj <$> (with_spending E (user_transactions userId w)
                                 <$> user_budgets userId w))))
  ∧ kv (after (get_budgets E r) w) = kv w.
Proof.
  intros Hav Hauth.
  change (wp (get_budgets E r)
    (λ o w', o = Ret (json (JArr (JObj <$> (with_spending E (user_transactions userId w)
                                              <$> user_budgets userId w))))
             ∧ kv w' = kv w) w).
  wp_unfold. wp_step. rewrite Hauth.
  wp_step. wp_available Hav. wp_step. wp_available Hav. by wp_step.
Qed.

(** The amounts that import stores are those of the document, unparsed: an
    expense imported with the amount written as the text [50] is stored so,
    and [GET /budgets] then answers for the Food budget of 200 the text
    [050] as [spent] (the [reduce] starts from [0] and [+] concatenates),
    and 150 as [remaining]. *)
Lemma imported_text_amount_is_concatenated :
  reachable text_env with_text_expense
  ∧ succeeded (answer (handle text_env Import text_import)
                 (after (handle text_env PostBudgets food_budget) empty_world)) = true
  ∧ (λ t, (fld t "type", fld t "category", fld t "amount"))
      <$> user_transactions "alice" with_text_expense
    = [(JStr "expense", JStr "Food", JStr "50")]
  ∧ figures (answer (get_budgets text_env list_budgets) with_text_expense)
    = [(JStr "Food", JNum 200, JStr "050", JNum 150)].
Proof.
  split; [exact (reachable_step text_env _ Import text_import
                   (reachable_step text_env _ PostBudgets food_budget
                      (reachable_empty text_env)))|].
  split; [vm_compute; reflexivity|].
  split; vm_compute; reflexivity.
Qed.

(** C1, amended.  When the amounts of the user's stored transactions and
    budgets are numbers, as create and update store them, and the store
    answers, [GET /budgets] answers the user's stored budgets, each with
    two more fields: [spent], the sum of the amounts of the user's
    transactions that are expenses in the budget's category, and
    [remaining], the budget's amount minus [spent]; the table is not
    changed.  And the scenario: a Food budget
    of 200 and a Food expense of 50 give 50 and 150; a second Food expense
    of 80 gives 130 and 70; once the first expense is deleted, 80 and 120. *)
Theorem budgets_enriched_with_spending :
  (∀ E r w userId,
     available E → getUserId E r = Some userId →
     Forall numeric_amount (user_transactions userId w) →
     Forall numeric_amount (user_budgets userId w) →
     answer (get_budgets E r) w
     = Ret (json (JArr (JObj <$> (enriched (user_transactions userId w)
                                    <$> user_budgets userId w))))
     ∧ kv (after (get_budgets E r) w) = kv w)
  ∧ figures (answer (get_budgets sample_env list_budgets) with_first_expense)
    = [(JStr "Food", JNum 200, JNum 50, JNum 150)]
  ∧ figures (answer (get_budgets sample_env list_budgets) with_second_expense)
    = [(JStr "Food", JNum 200, JNum 130, JNum 70)]
  ∧ figures (answer (get_budgets sample_env list_budgets) without_first_expense)
    = [(JStr "Food", JNum 200, JNum 80, JNum 120)].
Proof.
  split; [|by vm_compute].
  intros E r w userId Hav Hauth Hts Hbs.
  destruct (get_budgets_available E r w userId Hav Hauth) as [-> ->].
  split; [|done].
  assert (with_spending E (user_transactions userId w) <$> user_budgets userId w
          = enriched (user_transactions userId w) <$> user_budgets userId w) as ->; [|done].
  apply list_fmap_ext. intros i b Hb.
  apply with_spending_numeric; [done|].
  exact (Forall_lookup_1 _ _ _ _ Hbs Hb).
Qed.

Lemma budgets_enriched_with_spending_witness :
  answer (get_budgets sample_env list_budgets) with_second_expense
  = Ret (json (JArr (JObj <$> (enriched (user_transactions "alice" with_second_expense)
                                 <$> user_budgets "alice" with_second_expense))))
  ∧ kv (after (get_budgets sample_env list_budgets) with_second_expense)
    = kv with_second_expense.
Proof.
  apply (proj1 budgets_enriched_with_spending sample_env list_budgets
           with_second_expense "alice").
  - intros n. reflexivity.
  - reflexivity.
  - apply (bool_decide_unpack _). vm_compute. exact I.
  - apply (bool_decide_unpack _). vm_compute. exact I.
Defined.

(** ** Import *)

Lemma import_writes_length E key u n items :
  length (import_writes E key u n items) = length items.
Proof. revert n. induction items as [|x l IH]; intros n; cbn; [done|]. by rewrite IH. Qed.

Lemma write_all_nil w : write_all [] w = w.
Proof.
  destruct w as [m t n]. unfold write_all. cbn.
  f_equal; [by rewrite app_nil_r|lia].
Qed.

Lemma write_all_cons k o l w :
  write_all l (stored (<[k := o]> (kv w)) (logged (KvSet k o) (ticked (ticked w))))
  = write_all ((k, o) :: l) w.
Proof.
  unfold write_all. cbn. f_equal; [by rewrite <- app_assoc|lia].
Qed.

Lemma write_all_app l1 l2 w : write_all l2 (write_all l1 w) = write_all (l1 ++ l2) w.
Proof.
  unfold write_all. cbn. rewrite foldl_app, fmap_app, length_app.
  f_equal; [by rewrite app_assoc|lia].
Qed.

(** The loop of import either throws, a call of the store having failed,
    or returns after all its writes. *)
Lemma wp_import_loop E key u items w :
  wp (for_of items (import_item E key u))
    (λ o w', match o with
             | Ret _ => w' = write_all (import_writes E key u (tick w) items) w
             | Throw => ¬ available E
             end) w.
Proof.
  revert w. induction items as [|item items IH]; intros w.
  - cbn [for_of import_writes]. wp_step. by rewrite write_all_nil.
  - cbn [for_of import_writes]. wp_step.
    unfold import_item at 1; unfold kv_set. do 5 wp_step.
    + intros Hav. by rewrite Hav in H.
    + eapply wp_mono; [apply IH|].
      intros [[]|] w'; cbn [tick stored logged ticked]; [|done].
      intros ->. apply write_all_cons.
Qed.

Lemma wp_import_data E r w userId v ts bs :
  getUserId E r = Some userId → json_body r v →
  prop v "transactions" = JArr ts → prop v "budgets" = JArr bs →
  wp (import_data E r)
    (λ o w', succeeded o = true ∨ available E →
             o = Ret (import_report (length ts) (length bs))
             ∧ w' = write_all (all_import_writes E userId (tick w) ts bs) w) w.
Proof.
  intros Hauth (Hbody & Hnull & Hundef) Hts Hbs.
  unfold import_data. cbv zeta. wp_step. rewrite Hauth. wp_step. wp_step;
    [|destruct_or!; congruence].
  assert (v0 = v) as -> by congruence.
  rewrite Hts, Hbs. cbn [or_empty iterate]. do 3 wp_step.
  eapply wp_mono; [apply wp_import_loop|].
  intros [[]|] w1; wp_simpl.
  - intros ->. do 3 wp_step.
    eapply wp_mono; [apply wp_import_loop|].
    intros [[]|] w2; wp_simpl.
    + intros ->. wp_step. intros _. split; [done|].
      rewrite write_all_app. unfold all_import_writes. cbn [tick write_all].
      by rewrite import_writes_length.
    + intros Hno. wp_step. by intros [?|?].
  - intros Hno. wp_step. by intros [?|?].
Qed.

Lemma import_data_succeeded E r w v ts bs :
  json_body r v →
  prop v "transactions" = JArr ts → prop v "budgets" = JArr bs →
  succeeded (answer (import_data E r) w) = true →
  ∃ userId,
    getUserId E r = Some userId
    ∧ answer (import_data E r) w = Ret (import_report (length ts) (length bs))
    ∧ after (import_data E r) w
      = write_all (all_import_writes E userId (tick w) ts bs) w.
Proof.
  intros Hbody Hts Hbs Hok.
  destruct (getUserId E r) as [userId|] eqn:Hauth.
  - exists userId. split; [done|].
    apply (wp_import_data E r w userId v ts bs Hauth Hbody Hts Hbs). by left.
  - unfold answer, import_data, try_catch in Hok. by rewrite Hauth in Hok.
Qed.

Lemma import_data_available E r w userId v ts bs :
  available E → getUserId E r = Some userId → json_body r v →
  prop v "transactions" = JArr ts → prop v "budgets" = JArr bs →
  answer (import_data E r) w = Ret (import_report (length ts) (length bs))
  ∧ after (import_data E r) w
    = write_all (all_import_writes E userId (tick w) ts bs) w.
Proof.
  intros Hav Hauth Hbody Hts Hbs.
  apply (wp_import_data E r w userId v ts bs Hauth Hbody Hts Hbs). by right.
Qed.

Lemma imported_item_id u item id t : imported_item u item id t !! "id" = Some (JStr id).
Proof. unfold imported_item, with_props. cbn [foldl fst snd]. by simplify_map_eq. Qed.

Lemma imported_item_userId u item id t :
  imported_item u item id t !! "userId" = Some (JStr u).
Proof. unfold imported_item, with_props. cbn [foldl fst snd]. by simplify_map_eq. Qed.

Lemma imported_item_other u item id t f :
  f ∉ assigned_by_import →
  imported_item u item id t !! f = spread item !! f.
Proof.
  intros Hf. unfold imported_item, with_props. cbn [foldl fst snd].
  rewrite !lookup_insert_ne; [done|..]; intros <-; apply Hf;
    by apply (bool_decide_unpack _).
Qed.

Lemma import_writes_written_for E key u n items :
  (∀ id, key u id = transaction_key u id) ∨ (∀ id, key u id = budget_key u id) →
  Forall (written_for E u) (import_writes E key u n items).
Proof.
  intros Hkey. revert n.
  induction items as [|item items IH]; intros n; cbn [import_writes]; [done|].
  constructor; [|apply IH].
  exists n. cbn [fst snd]. split; [|split].
  - destruct Hkey as [Hkey|Hkey]; rewrite Hkey; auto.
  - apply imported_item_id.
  - apply imported_item_userId.
Qed.

(** C7. A successful import of a body with an array of [n] transactions and
    an array of [m] budgets answers [{success: true, imported:
    {transactions: n, budgets: m}}] and has issued one write per item and
    nothing else, the transactions first: each under a key of the caller
    built with an identifier drawn for it, the entity being the item with
    [id] set to that identifier, [userId] to the caller and [importedAt] to
    the time, whatever [id] and [userId] the item carried. *)
Theorem import_writes_each_item E r w v ts bs :
  json_body r v →
  prop v "transactions" = JArr ts → prop v "budgets" = JArr bs →
  succeeded (answer (import_data E r) w) = true →
  ∃ userId,
    getUserId E r = Some userId
    ∧ answer (import_data E r) w = Ret (import_report (length ts) (length bs))
    ∧ after (import_data E r) w
      = write_all (all_import_writes E userId (tick w) ts bs) w
    ∧ length (all_import_writes E userId (tick w) ts bs) = length ts + length bs
    ∧ Forall (written_for E userId) (all_import_writes E userId (tick w) ts bs).
Proof.
  intros Hbody Hts Hbs Hok.
  destruct (import_data_succeeded E r w v ts bs Hbody Hts Hbs Hok)
    as (userId & Hauth & Hans & Hafter).
  exists userId. do 3 (split; [done|]). unfold all_import_writes. split.
  - by rewrite length_app, !import_writes_length.
  - apply Forall_app. split; apply import_writes_written_for; auto.
Qed.

Lemma import_writes_each_item_witness :
  ∃ userId,
    getUserId sample_env sample_import = Some userId
    ∧ answer (import_data sample_env sample_import) empty_world
      = Ret (import_report (length sample_transactions) (length sample_budgets))
    ∧ after (import_data sample_env sample_import) empty_world
      = write_all (all_import_writes sample_env userId (tick empty_world)
                     sample_transactions sample_budgets) empty_world
    ∧ length (all_import_writes sample_env userId (tick empty_world)
                sample_transactions sample_budgets)
      = length sample_transactions + length sample_budgets
    ∧ Forall (written_for sample_env userId)
        (all_import_writes sample_env userId (tick empty_world)
           sample_transactions sample_budgets).
Proof.
  apply (import_writes_each_item sample_env sample_import empty_world
           sample_backup sample_transactions sample_budgets).
  - repeat split; discriminate.
  - vm_compute. reflexivity.
  - vm_compute. reflexivity.
  - vm_compute. reflexivity.
Defined.

(** ** Scans of a table that grows *)

Lemma scan_empty_lookup p (m : gmap string obj) k :
  scan p m = [] → String.prefix p k = true → m !! k = None.
Proof.
  unfold scan. intros Hnil Hp.
  apply map_to_list_empty_iff in Hnil.
  destruct (m !! k) as [o|] eqn:Hk; [|done].
  assert (filter (λ e : string * obj, String.prefix p e.1) m !! k = Some o) as Hin.
  { apply map_lookup_filter_Some. split; [done|]. cbn. by rewrite Hp. }
  by rewrite Hnil in Hin.
Qed.

Lemma scan_insert_fresh p (m : gmap string obj) k o :
  m !! k = None →
  scan p (<[k := o]> m) ≡ₚ (if String.prefix p k then [(k, o)] else []) ++ scan p m.
Proof.
  intros Hk. unfold scan. destruct (String.prefix p k) eqn:Hp.
  - rewrite map_filter_insert_True by (cbn; by rewrite Hp).
    apply map_to_list_insert. apply map_lookup_filter_None_2. by left.
  - rewrite map_filter_insert_not'; [done|by apply Is_true_false|].
    intros y Hy. congruence.
Qed.

Lemma scan_writes p (l : list (string * obj)) (m : gmap string obj) :
  NoDup l.*1 → (∀ k, k ∈ l.*1 → m !! k = None) →
  scan p (foldl (λ m e, <[e.1 := e.2]> m) m l)
  ≡ₚ scan p m ++ filter (λ e, String.prefix p e.1) l.
Proof.
  revert m. induction l as [|[k o] l IH]; intros m Hdup Hfresh.
  - by rewrite app_nil_r.
  - cbn [foldl fst snd]. cbn in Hdup. apply NoDup_cons in Hdup as [Hk Hdup].
    rewrite IH; [|done|].
    + rewrite scan_insert_fresh by (apply Hfresh; left).
      rewrite filter_cons. cbn [fst].
      destruct (String.prefix p k); cbn [Is_true]; [|done].
      rewrite decide_True by done. cbn [app].
      by rewrite Permutation_middle.
    + intros k' Hk'. rewrite lookup_insert_ne by (intros ->; done).
      apply Hfresh. by right.
Qed.

(** ** The keys of an import *)

Lemma import_writes_keys E key u n items k :
  k ∈ (import_writes E key u n items).*1 →
  ∃ i, n ≤ i ∧ k = key u ("txn_" +:+ random_part E i).
Proof.
  revert n. induction items as [|item items IH]; intros n; cbn.
  - by intros ?%elem_of_nil.
  - intros [->|Hk]%elem_of_cons; [by exists n|].
    destruct (IH _ Hk) as (i & Hi & ->). exists i. split; [lia|done].
Qed.

Lemma import_writes_NoDup E key u n items :
  fresh_identifiers E → (∀ id id', key u id = key u id' → id = id') →
  NoDup (import_writes E key u n items).*1.
Proof.
  intros Hfresh Hkey. revert n.
  induction items as [|item items IH]; intros n; cbn; [constructor|].
  apply NoDup_cons. split; [|apply IH].
  intros (i & Hi & Heq)%import_writes_keys.
  apply Hkey, app_inj_same, Hfresh in Heq. lia.
Qed.

Lemma all_import_writes_NoDup E u n ts bs :
  fresh_identifiers E → NoDup (all_import_writes E u n ts bs).*1.
Proof.
  intros Hfresh. unfold all_import_writes. rewrite fmap_app.
  apply NoDup_app. split; [|split].
  - apply import_writes_NoDup; [done|apply transaction_key_inj].
  - intros k (i & _ & ->)%import_writes_keys (j & _ & Heq)%import_writes_keys.
    by apply transaction_key_not_budget in Heq.
  - apply import_writes_NoDup; [done|apply budget_key_inj].
Qed.

Lemma all_import_writes_fresh E u n ts bs w k :
  empty_account u w → k ∈ (all_import_writes E u n ts bs).*1 → kv w !! k = None.
Proof.
  intros [Ht Hb]. unfold all_import_writes. rewrite fmap_app.
  intros [Hk|Hk]%elem_of_app; apply import_writes_keys in Hk as (i & _ & ->).
  - apply (scan_empty_lookup (transaction_prefix u)).
    + unfold user_transactions in Ht. by apply fmap_nil_inv in Ht.
    + apply transaction_key_prefix.
  - apply (scan_empty_lookup (budget_prefix u)).
    + unfold user_budgets in Hb. by apply fmap_nil_inv in Hb.
    + apply budget_key_prefix.
Qed.

Lemma filter_import_writes_all E key p u n items :
  (∀ id, String.prefix p (key u id) = true) →
  filter (λ e : string * obj, String.prefix p e.1) (import_writes E key u n items)
  = import_writes E key u n items.
Proof.
  intros Hp. revert n. induction items as [|item items IH]; intros n; [done|].
  cbn [import_writes]. rewrite filter_cons_True by (cbn; by rewrite Hp).
  by rewrite IH.
Qed.

Lemma filter_import_writes_none E key p u n items :
  (∀ id, String.prefix p (key u id) = false) →
  filter (λ e : string * obj, String.prefix p e.1) (import_writes E key u n items) = [].
Proof.
  intros Hp. revert n. induction items as [|item items IH]; intros n; [done|].
  cbn [import_writes]. rewrite filter_cons_False by (apply Is_true_false, Hp).
  apply IH.
Qed.

Lemma user_transactions_after_import E u ts bs w :
  fresh_identifiers E → empty_account u w →
  user_transactions u (write_all (all_import_writes E u (tick w) ts bs) w)
  ≡ₚ (import_writes E transaction_key u (tick w) ts).*2.
Proof.
  intros Hfresh Hempty. unfold user_transactions. cbn [kv write_all].
  rewrite scan_writes;
    [|by apply all_import_writes_NoDup|intros k; by apply all_import_writes_fresh].
  destruct Hempty as [Ht _]. unfold user_transactions in Ht.
  apply fmap_nil_inv in Ht. rewrite Ht. cbn [app].
  unfold all_import_writes. rewrite filter_app.
  rewrite filter_import_writes_all by apply transaction_key_prefix.
  rewrite filter_import_writes_none by apply transaction_prefix_not_budget.
  by rewrite app_nil_r.
Qed.

Lemma user_budgets_after_import E u ts bs w :
  fresh_identifiers E → empty_account u w →
  user_budgets u (write_all (all_import_writes E u (tick w) ts bs) w)
  ≡ₚ (import_writes E budget_key u (tick w + 2 * length ts) bs).*2.
Proof.
  intros Hfresh Hempty. unfold user_budgets. cbn [kv write_all].
  rewrite scan_writes;
    [|by apply all_import_writes_NoDup|intros k; by apply all_import_writes_fresh].
  destruct Hempty as [_ Hb]. unfold user_budgets in Hb.
  apply fmap_nil_inv in Hb. rewrite Hb. cbn [app].
  unfold all_import_writes. rewrite filter_app.
  rewrite filter_import_writes_none by apply budget_prefix_not_transaction.
  by rewrite filter_import_writes_all by apply budget_key_prefix.
Qed.

(** ** What an imported entity keeps *)

Lemma view_imported_item fields u (t : obj) id tm :
  (∀ f, f ∈ fields → f ∉ assigned_by_import) →
  view fields (imported_item u (JObj t) id tm) = view fields t.
Proof.
  intros Hf. unfold view. apply list_fmap_ext. intros i f Hi.
  unfold fld. rewrite imported_item_other; [done|].
  apply Hf. by eapply list_elem_of_lookup_2.
Qed.

Lemma view_import_writes fields E key u n (entities : list obj) :
  (∀ f, f ∈ fields → f ∉ assigned_by_import) →
  view fields <$> (import_writes E key u n (JObj <$> entities)).*2
  = view fields <$> entities.
Proof.
  intros Hf. revert n.
  induction entities as [|t entities IH]; intros n; [done|].
  rewrite fmap_cons. cbn [import_writes]. rewrite !fmap_cons. cbn [snd].
  rewrite view_imported_item by done. f_equal. apply IH.
Qed.

(** ** Export, then import *)

Lemma export_data_available E r w userId :
  available E → getUserId E r = Some userId →
  answer (export_data E r) w
  = Ret (json (object [("transactions", JArr (JObj <$> user_transactions userId w));
                       ("budgets", JArr (JObj <$> user_budgets userId w));
                       ("exportDate", JStr (iso_time E (tick w)));
                       ("version", JStr "1.0")]))
  ∧ kv (after (export_data E r) w) = kv w.
Proof.
  intros Hav Hauth.
  change (wp (export_data E r)
    (λ o w',
       o = Ret (json (object [("transactions", JArr (JObj <$> user_transactions userId w));
                              ("budgets", JArr (JObj <$> user_budgets userId w));
                              ("exportDate", JStr (iso_time E (tick w)));
                              ("version", JStr "1.0")]))
       ∧ kv w' = kv w) w).
  wp_unfold. wp_step. rewrite Hauth.
  wp_step. wp_available Hav. wp_step. wp_available Hav. by repeat wp_step.
Qed.

Lemma exported_arrays E r w userId :
  available E → getUserId E r = Some userId →
  prop (payload_of (answer (export_data E r) w)) "transactions"
  = JArr (JObj <$> user_transactions userId w)
  ∧ prop (payload_of (answer (export_data E r) w)) "budgets"
    = JArr (JObj <$> user_budgets userId w).
Proof.
  intros Hav Hauth.
  destruct (export_data_available E r w userId Hav Hauth) as [-> _].
  unfold payload_of, json, payload, object, prop, fld, with_props.
  cbn [foldl fst snd]. split; by simplify_map_eq.
Qed.

(** C5. Exporting a user's data and importing the exported arrays of
    transactions and budgets, as the same user, into an account that holds
    nothing of that user, both succeed (the store answering, and no two
    identifiers drawn being the same), and the account then holds the same
    transactions and budgets up to their order, their [id] and the added
    [importedAt]: the lists of (amount, category, type, description, date)
    of the transactions are permutations of one another, and so are the
    lists of (category, amount, period) of the budgets. *)
Theorem export_import_round_trip E r_export r_import w w' userId backup :
  available E → fresh_identifiers E →
  getUserId E r_export = Some userId → getUserId E r_import = Some userId →
  empty_account userId w' →
  json_body r_import backup →
  prop backup "transactions"
    = prop (payload_of (answer (export_data E r_export) w)) "transactions" →
  prop backup "budgets"
    = prop (payload_of (answer (export_data E r_export) w)) "budgets" →
  succeeded (answer (export_data E r_export) w) = true
  ∧ succeeded (answer (import_data E r_import) w') = true
  ∧ view transaction_fields
      <$> user_transactions userId (after (import_data E r_import) w')
    ≡ₚ view transaction_fields <$> user_transactions userId w
  ∧ view budget_fields
      <$> user_budgets userId (after (import_data E r_import) w')
    ≡ₚ view budget_fields <$> user_budgets userId w.
Proof.
  intros Hav Hfresh Hexp Himp Hempty Hbody Hts Hbs.
  destruct (exported_arrays E r_export w userId Hav Hexp) as [Hts' Hbs'].
  rewrite Hts' in Hts. rewrite Hbs' in Hbs.
  destruct (import_data_available E r_import w' userId backup _ _
              Hav Himp Hbody Hts Hbs) as [Hans Hafter].
  split; [by destruct (export_data_available E r_export w userId Hav Hexp) as [-> _]|].
  split; [by rewrite Hans|].
  rewrite Hafter. split.
  - rewrite user_transactions_after_import by done.
    rewrite view_import_writes; [done|].
    intros f Hf. revert f Hf. by apply Forall_forall, (bool_decide_unpack _).
  - rewrite user_budgets_after_import by done.
    rewrite view_import_writes; [done|].
    intros f Hf. revert f Hf. by apply Forall_forall, (bool_decide_unpack _).
Qed.

Lemma export_import_round_trip_witness :
  succeeded (answer (export_data sample_env export_request) with_second_expense) = true
  ∧ succeeded (answer (import_data sample_env import_of_backup) empty_world) = true
  ∧ view transaction_fields
      <$> user_transactions "alice" (after (import_data sample_env import_of_backup) empty_world)
    ≡ₚ view transaction_fields <$> user_transactions "alice" with_second_expense
  ∧ view budget_fields
      <$> user_budgets "alice" (after (import_data sample_env import_of_backup) empty_world)
    ≡ₚ view budget_fields <$> user_budgets "alice" with_second_expense.
Proof.
  apply (export_import_round_trip sample_env export_request import_of_backup
           with_second_expense empty_world "alice" exported_backup).
  - intros n. reflexivity.
  - intros i j H. by apply (inj pretty).
  - reflexivity.
  - reflexivity.
  - split; vm_compute; reflexivity.
  - split; [reflexivity|]. split; intros H; vm_compute in H; discriminate.
  - reflexivity.
  - reflexivity.
Defined.

(** ** The calls of a request stay in the caller's key space *)

Section Calls.
Context (E : env) (userId : string) (w0 : world).

Lemma only_calls_refl : only_calls_of userId w0 w0.
Proof. exists []. by rewrite app_nil_r. Qed.

Lemma only_calls_logged op w :
  call_of userId op → only_calls_of userId w0 w → only_calls_of userId w0 (logged op w).
Proof.
  intros Hop (calls & Htr & Hcalls). exists (calls ++ [op]). split.
  - cbn [trace logged]. by rewrite Htr, app_assoc.
  - apply Forall_app. split; [done|by constructor].
Qed.

Lemma only_calls_stored m w :
  only_calls_of userId w0 w → only_calls_of userId w0 (stored m w).
Proof. done. Qed.

Lemma only_calls_ticked w :
  only_calls_of userId w0 w → only_calls_of userId w0 (ticked w).
Proof. done. Qed.

Lemma key_of_transaction id : key_of userId (transaction_key userId id).
Proof. exists id. by left. Qed.

Lemma key_of_budget id : key_of userId (budget_key userId id).
Proof. exists id. by right. Qed.
End Calls.

Ltac calls_with tac :=
  repeat lazymatch goal with
    | |- only_calls_of _ _ (stored _ _) => apply only_calls_stored
    | |- only_calls_of _ _ (ticked _) => apply only_calls_ticked
    | |- only_calls_of _ _ (logged _ _) =>
        apply only_calls_logged; [cbn [call_of]; tac|]
    | |- only_calls_of _ ?w ?w => apply only_calls_refl
    | |- only_calls_of _ _ _ => assumption
    end.

Ltac calls :=
  calls_with ltac:(first [ apply key_of_transaction | apply key_of_budget
                         | by left | by right ]).

Lemma wp_import_loop_calls E key u w0 items w :
  (∀ id, key_of u (key u id)) →
  only_calls_of u w0 w →
  wp (for_of items (import_item E key u)) (λ _ w', only_calls_of u w0 w') w.
Proof.
  intros Hkey Hw.
  apply (wp_for_of (λ w', only_calls_of u w0 w')); [done|].
  intros item w' _ Hw'. unfold import_item, kv_set.
  repeat wp_step; calls_with ltac:(apply Hkey).
Qed.

Lemma wp_delete_loop_calls E (key : string → string → string) u w0 (entities : list obj) w :
  (∀ id, key_of u (key u id)) →
  only_calls_of u w0 w →
  wp (for_of entities (λ e, kv_del E (key u (to_string E (fld e "id")))))
    (λ _ w', only_calls_of u w0 w') w.
Proof.
  intros Hkey Hw.
  apply (wp_for_of (λ w', only_calls_of u w0 w')); [done|].
  intros item w' _ Hw'. unfold kv_del.
  repeat wp_step; calls_with ltac:(apply Hkey).
Qed.

Lemma import_data_only_calls E r w userId :
  getUserId E r = Some userId →
  only_calls_of userId w (after (import_data E r) w).
Proof.
  intros Hauth.
  change (wp (import_data E r) (λ _ w', only_calls_of userId w w') w).
  unfold import_data, iterate. cbv zeta. wp_step. rewrite Hauth.
  wp_step. wp_step; [|wp_step; by calls].
  wp_step. wp_step; wp_step; try (wp_step; by calls).
  all: wp_step;
    (eapply wp_mono;
     [apply (wp_import_loop_calls E transaction_key userId w);
      [apply key_of_transaction|by calls]|]);
    intros [[]|] w1 Hw1; wp_simpl; [|wp_step; by calls];
    wp_step; wp_step; wp_step; try (wp_step; by calls).
  all: wp_step;
    (eapply wp_mono;
     [apply (wp_import_loop_calls E budget_key userId w);
      [apply key_of_budget|by calls]|]);
    intros [[]|] w2 Hw2; wp_simpl; wp_step; by calls.
Qed.

Lemma delete_account_only_calls E r w userId :
  getUserId E r = Some userId →
  only_calls_of userId w (after (delete_account E r) w).
Proof.
  intros Hauth.
  change (wp (delete_account E r) (λ _ w', only_calls_of userId w w') w).
  unfold delete_account, kv_getByPrefix. cbv zeta. wp_step. rewrite Hauth.
  do 2 wp_step; [wp_step; by calls|].
  do 2 wp_step; [wp_step; by calls|].
  wp_step.
  eapply wp_mono;
    [apply (wp_delete_loop_calls E transaction_key userId w);
     [apply key_of_transaction|by calls]|].
  intros [[]|] w1 Hw1; wp_simpl; [|wp_step; by calls].
  wp_step.
  eapply wp_mono;
    [apply (wp_delete_loop_calls E budget_key userId w);
     [apply key_of_budget|by calls]|].
  intros [[]|] w2 Hw2; wp_simpl; wp_step; by calls.
Qed.

Lemma handle_only_calls E rt r w userId :
  getUserId E r = Some userId →
  only_calls_of userId w (after (handle E rt r) w).
Proof.
  intros Hauth.
  destruct rt; cbn [handle];
    try (by apply import_data_only_calls);
    try (by apply delete_account_only_calls).
  all: match goal with
       | |- only_calls_of _ _ (after ?m _) =>
           change (wp m (λ _ w', only_calls_of userId w w') w)
       end.
  all: wp_unfold; try wp_step; rewrite ?Hauth.
  all: repeat wp_step; by calls.
Qed.

(** ** Prefix scans and users *)

Lemma prefix_inv (p k : string) : String.prefix p k = true → ∃ s, k = p +:+ s.
Proof.
  revert k. induction p as [|c p IH]; intros [|c' k]; simpl; try done.
  - intros _. by exists EmptyString.
  - intros _. by exists (String c' k).
  - destruct (ascii_dec c c') as [<-|]; [|done].
    intros (s & ->)%IH. by exists s.
Qed.

Lemma elem_of_scan p (m : gmap string obj) k v :
  (k, v) ∈ scan p m ↔ m !! k = Some v ∧ String.prefix p k = true.
Proof.
  unfold scan. rewrite elem_of_map_to_list, map_lookup_filter_Some. cbn.
  by rewrite Is_true_true.
Qed.

Lemma elem_of_scan_transactions u (m : gmap string obj) k v :
  (k, v) ∈ scan (transaction_prefix u) m
  ↔ m !! k = Some v ∧ ∃ id, k = transaction_key u id.
Proof.
  rewrite elem_of_scan. split; intros [Hk Hp]; (split; [done|]).
  - apply prefix_inv in Hp as (id & ->). exists id.
    unfold transaction_prefix, transaction_key.
    by rewrite !append_assoc.
  - destruct Hp as (id & ->). apply transaction_key_prefix.
Qed.

Lemma elem_of_scan_budgets u (m : gmap string obj) k v :
  (k, v) ∈ scan (budget_prefix u) m
  ↔ m !! k = Some v ∧ ∃ id, k = budget_key u id.
Proof.
  rewrite elem_of_scan. split; intros [Hk Hp]; (split; [done|]).
  - apply prefix_inv in Hp as (id & ->). exists id.
    unfold budget_prefix, budget_key.
    by rewrite !append_assoc.
  - destruct Hp as (id & ->). apply budget_key_prefix.
Qed.

Lemma key_of_other_user_no_prefix A B k :
  no_colon A = true → no_colon B = true → A ≠ B → key_of B k →
  String.prefix (transaction_prefix A) k = false
  ∧ String.prefix (budget_prefix A) k = false.
Proof.
  intros HA HB Hne (id & [->| ->]); split;
    try apply transaction_prefix_not_budget;
    try apply budget_prefix_not_transaction;
    apply not_true_is_false; intros Hp; apply Hne.
  - by apply (transaction_prefix_owner A B id).
  - by apply (budget_prefix_owner A B id).
Qed.

(** Keys are plain concatenations, and what keeps the prefixes of two users
    apart is that identifiers hold no colon.  Were the provider to issue an
    identifier that continues another after a colon, the expense that
    [alice:shared] entered, stored under [transaction:alice:shared:txn_0],
    would be answered to [alice] by the scan of [transaction:alice:]. *)
Lemma scan_answers_entity_of_other_user :
  getUserId sample_env shared_expense = Some "alice:shared"
  ∧ getUserId sample_env list_transactions = Some "alice"
  ∧ stored_field with_shared_expense
      (transaction_key "alice:shared" "txn_0") "userId"
    = Some (JStr "alice:shared")
  ∧ answer (get_transactions sample_env list_transactions) with_shared_expense
    = Ret (json (JArr (JObj <$> user_transactions "alice" with_shared_expense)))
  ∧ (λ t, fld t "userId") <$> user_transactions "alice" with_shared_expense
    = [JStr "alice:shared"].
Proof.
  split; [vm_compute; reflexivity|].
  split; [vm_compute; reflexivity|].
  split; [vm_compute; reflexivity|].
  split; vm_compute; reflexivity.
Qed.

(** ** The owner of a stored entity *)

Lemma getUserId_plain E r u :
  plain_identifiers E → getUserId E r = Some u → no_colon u = true.
Proof.
  intros Hplain. unfold getUserId.
  destruct (authorization r) as [h|]; [|done].
  destruct (split_space h !! 1%nat) as [token|]; [|done].
  case_bool_decide; [done|].
  destruct (auth_getUser E token) as [id|] eqn:Hid; [|done].
  case_bool_decide; [done|]. intros [= <-]. by eapply Hplain.
Qed.

Lemma key_of_one_user u u' k :
  no_colon u = true → no_colon u' = true → key_of u k → key_of u' k → u = u'.
Proof.
  intros Hu Hu' (id & [->| ->]) (id' & [Heq|Heq]).
  - apply (transaction_prefix_owner u u' id'); [done..|].
    rewrite <- Heq. apply transaction_key_prefix.
  - by apply transaction_key_not_budget in Heq.
  - symmetry in Heq. by apply transaction_key_not_budget in Heq.
  - apply (budget_prefix_owner u u' id'); [done..|].
    rewrite <- Heq. apply budget_key_prefix.
Qed.

Lemma owned_empty : owned ∅.
Proof. intros k v. by rewrite lookup_empty. Qed.

Lemma owned_lookup m u k v :
  owned m → no_colon u = true → m !! k = Some v → key_of u k →
  v !! "userId" = Some (JStr u).
Proof.
  intros Hm Hu Hv Hk. destruct (Hm k v Hv) as (u' & Hu' & Hk' & Hid).
  by rewrite (key_of_one_user u u' k).
Qed.

Lemma owned_insert m u k v :
  no_colon u = true → key_of u k → v !! "userId" = Some (JStr u) →
  owned m → owned (<[k := v]> m).
Proof.
  intros Hu Hk Hv Hm k' v'. destruct (decide (k = k')) as [<-|Hne].
  - rewrite lookup_insert_eq. intros [= <-]. by exists u.
  - rewrite lookup_insert_ne by done. apply Hm.
Qed.

Lemma owned_delete m k : owned m → owned (delete k m).
Proof.
  intros Hm k' v'. destruct (decide (k = k')) as [<-|Hne].
  - by rewrite lookup_delete_eq.
  - rewrite lookup_delete_ne by done. apply Hm.
Qed.

Ltac owned_leaf Hu Hw :=
  cbn [kv stored logged ticked];
  first
    [ exact Hw
    | apply owned_delete; exact Hw
    | eapply owned_insert;
        [ exact Hu
        | first [apply key_of_transaction | apply key_of_budget]
        | unfold with_props; cbn [foldl fst snd];
          rewrite ?lookup_insert_ne by done;
          first [ apply lookup_insert_eq
                | eapply owned_lookup;
                    [ exact Hw | exact Hu | eassumption
                    | first [apply key_of_transaction | apply key_of_budget] ] ]
        | exact Hw ] ].

Lemma wp_import_loop_owned E key u items w :
  no_colon u = true → (∀ id, key_of u (key u id)) → owned (kv w) →
  wp (for_of items (import_item E key u)) (λ _ w', owned (kv w')) w.
Proof.
  intros Hu Hkey Hw.
  apply (wp_for_of (λ w', owned (kv w'))); [done|].
  intros item w' _ Hw'. unfold import_item, kv_set.
  repeat wp_step; [done|].
  apply owned_insert with u; [done|apply Hkey|apply imported_item_userId|done].
Qed.

Lemma wp_delete_loop_owned E (key : string → string → string) u (entities : list obj) w :
  owned (kv w) →
  wp (for_of entities (λ e, kv_del E (key u (to_string E (fld e "id")))))
    (λ _ w', owned (kv w')) w.
Proof.
  intros Hw.
  apply (wp_for_of (λ w', owned (kv w'))); [done|].
  intros item w' _ Hw'. unfold kv_del.
  repeat wp_step; [done|]. by apply owned_delete.
Qed.

Lemma import_data_owned E r w :
  plain_identifiers E → owned (kv w) → owned (kv (after (import_data E r) w)).
Proof.
  intros Hplain Hw.
  change (wp (import_data E r) (λ _ w', owned (kv w')) w).
  unfold import_data, iterate. cbv zeta. wp_step.
  destruct (getUserId E r) as [userId|] eqn:Hauth; [|by wp_step].
  pose proof (getUserId_plain E r userId Hplain Hauth) as Hu.
  wp_step. wp_step; [|by wp_step].
  wp_step. wp_step; wp_step; try (by wp_step).
  all: wp_step;
    (eapply wp_mono;
     [apply (wp_import_loop_owned E transaction_key userId);
      [done|apply key_of_transaction|done]|]);
    intros [[]|] w1 Hw1; wp_simpl; [|by wp_step];
    wp_step; wp_step; wp_step; try (by wp_step).
  all: wp_step;
    (eapply wp_mono;
     [apply (wp_import_loop_owned E budget_key userId);
      [done|apply key_of_budget|done]|]);
    intros [[]|] w2 Hw2; wp_simpl; by wp_step.
Qed.

Lemma delete_account_owned E r w :
  owned (kv w) → owned (kv (after (delete_account E r) w)).
Proof.
  intros Hw.
  change (wp (delete_account E r) (λ _ w', owned (kv w')) w).
  unfold delete_account, kv_getByPrefix. cbv zeta. wp_step.
  destruct (getUserId E r) as [userId|] eqn:Hauth; [|by wp_step].
  do 2 wp_step; [by wp_step|].
  do 2 wp_step; [by wp_step|].
  wp_step.
  eapply wp_mono; [by apply (wp_delete_loop_owned E transaction_key userId)|].
  intros [[]|] w1 Hw1; wp_simpl; [|by wp_step].
  wp_step.
  eapply wp_mono; [by apply (wp_delete_loop_owned E budget_key userId)|].
  intros [[]|] w2 Hw2; wp_simpl; by wp_step.
Qed.

Lemma handle_owned E rt r w :
  plain_identifiers E → owned (kv w) → owned (kv (after (handle E rt r) w)).
Proof.
  intros Hplain Hw.
  destruct rt; cbn [handle];
    try (by apply import_data_owned);
    try (by apply delete_account_owned).
  all: match goal with
       | |- owned (kv (after ?m _)) => change (wp m (λ _ w', owned (kv w')) w)
       end.
  all: wp_unfold; try wp_step.
  all: try (destruct (getUserId E r) as [userId|] eqn:Hauth; [|by wp_step];
            pose proof (getUserId_plain E r userId Hplain Hauth) as Hu).
  all: repeat wp_step; by owned_leaf Hu Hw.
Qed.

Lemma reachable_owned E w : plain_identifiers E → reachable E w → owned (kv w).
Proof.
  intros Hplain Hw. induction Hw as [|w rt r _ IH].
  - apply owned_empty.
  - by apply handle_owned.
Qed.

(** ** Scans and owners *)

Lemma plain_env_plain_identifiers : plain_identifiers plain_env.
Proof.
  intros token u. cbn [auth_getUser plain_env]. unfold plain_users.
  repeat case_bool_decide; intros [= <-]; reflexivity.
Defined.

Lemma owned_by_key m A k v :
  owned m → m !! k = Some v → owned_by A v → key_of A k.
Proof.
  intros Hm Hv HA. destruct (Hm k v Hv) as (u & _ & Hk & Hu).
  unfold owned_by in HA. by assert (u = A) as <- by congruence.
Qed.

Lemma scanned_transaction_owned m A v :
  owned m → no_colon A = true → v ∈ (scan (transaction_prefix A) m).*2 → owned_by A v.
Proof.
  intros Hm HA Hin. apply list_elem_of_fmap in Hin as ([k v'] & -> & Hin).
  apply elem_of_scan_transactions in Hin as [Hv (id & ->)].
  apply (owned_lookup m A _ v' Hm HA Hv). apply key_of_transaction.
Qed.

Lemma scanned_budget_owned m A v :
  owned m → no_colon A = true → v ∈ (scan (budget_prefix A) m).*2 → owned_by A v.
Proof.
  intros Hm HA Hin. apply list_elem_of_fmap in Hin as ([k v'] & -> & Hin).
  apply elem_of_scan_budgets in Hin as [Hv (id & ->)].
  apply (owned_lookup m A _ v' Hm HA Hv). apply key_of_budget.
Qed.

(** C2. The identifiers the provider issues holding no colon, for users [A]
    and [B], distinct: every store call of a request of [A], on any route,
    its writes among them, addresses a key [transaction:A:id] or
    [budget:A:id] or scans one of [A]'s two prefixes; and in every world
    the server can reach, the scan of [transaction:A:] (of [budget:A:])
    answers every transaction (every budget) owned by [A], answers only
    entities owned by [A], and so none owned by [B]. *)
Theorem scans_separate_users E A B :
  plain_identifiers E → no_colon A = true → A ≠ B →
  (∀ rt r w, getUserId E r = Some A →
     only_calls_of A w (after (handle E rt r) w))
  ∧ (∀ w, reachable E w →
       (∀ k v, kv w !! k = Some v → owned_by A v →
          (transaction_kind k = true → v ∈ user_transactions A w)
          ∧ (budget_kind k = true → v ∈ user_budgets A w))
       ∧ (∀ v, v ∈ user_transactions A w ∨ v ∈ user_budgets A w →
            owned_by A v ∧ ¬ owned_by B v)).
Proof.
  intros Hplain HA Hne. split.
  - intros rt r w Hauth. by apply handle_only_calls.
  - intros w Hw. pose proof (reachable_owned E w Hplain Hw) as Hm. split.
    + intros k v Hv Hown.
      destruct (owned_by_key (kv w) A k v Hm Hv Hown) as (id & [->| ->]);
        (split; [intros Hkind|intros Hkind]); try done.
      * apply list_elem_of_fmap. exists (transaction_key A id, v).
        split; [done|]. apply elem_of_scan_transactions. split; [done|by exists id].
      * apply list_elem_of_fmap. exists (budget_key A id, v).
        split; [done|]. apply elem_of_scan_budgets. split; [done|by exists id].
    + intros v Hin.
      assert (owned_by A v) as Hown.
      { destruct Hin as [Hin|Hin];
          [by apply (scanned_transaction_owned (kv w))
          |by apply (scanned_budget_owned (kv w))]. }
      split; [done|]. unfold owned_by in *. intros HB. apply Hne. congruence.
Qed.

Lemma scans_separate_users_witness :
  only_calls_of "alice" two_accounts
    (after (handle plain_env GetTransactions by_alice) two_accounts)
  ∧ length (user_transactions "alice" two_accounts) = 2
  ∧ length (user_transactions "bob" two_accounts) = 1
  ∧ default ∅ (kv two_accounts !! transaction_key "alice" "txn_2")
    ∈ user_transactions "alice" two_accounts
  ∧ owned_by "alice" (default ∅ (kv two_accounts !! transaction_key "alice" "txn_2")).
Proof.
  destruct (scans_separate_users plain_env "alice" "bob"
              plain_env_plain_identifiers eq_refl ltac:(discriminate))
    as [Hcalls Hscan].
  assert (reachable plain_env two_accounts) as Hreach.
  { unfold two_accounts. do 4 apply reachable_step. apply reachable_empty. }
  destruct (Hscan two_accounts Hreach) as [Hall Honly].
  assert (getUserId plain_env by_alice = Some "alice") as Hauth
    by (vm_compute; reflexivity).
  assert (bool_decide (is_Some (kv two_accounts !! transaction_key "alice" "txn_2"))
          = true) as Hsome by (vm_compute; reflexivity).
  destruct (kv two_accounts !! transaction_key "alice" "txn_2") as [v|] eqn:Hv;
    [|discriminate Hsome].
  cbn [default].
  assert (v ∈ user_transactions "alice" two_accounts) as Hin.
  { refine (proj1 (Hall (transaction_key "alice" "txn_2") v Hv _) eq_refl).
    exact (owned_lookup (kv two_accounts) "alice" (transaction_key "alice" "txn_2") v
             (reachable_owned plain_env two_accounts plain_env_plain_identifiers Hreach)
             eq_refl Hv (key_of_transaction "alice" "txn_2")). }
  split; [exact (Hcalls GetTransactions by_alice two_accounts Hauth)|].
  split; [vm_compute; reflexivity|].
  split; [vm_compute; reflexivity|].
  split; [exact Hin|]. exact (proj1 (Honly v (or_introl Hin))).
Defined.

(** ** The owner of a written entity *)

(** The same remark on identifiers: were the provider to issue [alice] and
    [alice:shared], an update by [alice] of the transaction [shared:txn_0]
    would find under her key [transaction:alice:shared:txn_0] the expense
    that [alice:shared] entered, and store the merge under that key with the
    [userId] it had, [alice:shared]. *)
Lemma update_stores_userId_of_other_user :
  getUserId sample_env update_of_shared = Some "alice"
  ∧ reachable sample_env
      (after (handle sample_env PutTransactions update_of_shared) with_shared_expense)
  ∧ succeeded (answer (handle sample_env PutTransactions update_of_shared)
                 with_shared_expense) = true
  ∧ stored_field
      (after (handle sample_env PutTransactions update_of_shared) with_shared_expense)
      (transaction_key "alice" (param_id update_of_shared)) "description"
    = Some (JStr "changed")
  ∧ stored_field
      (after (handle sample_env PutTransactions update_of_shared) with_shared_expense)
      (transaction_key "alice" (param_id update_of_shared)) "userId"
    = Some (JStr "alice:shared").
Proof.
  split; [vm_compute; reflexivity|].
  split; [exact (reachable_step sample_env _ PutTransactions update_of_shared
                   (reachable_step sample_env _ PostTransactions shared_expense
                      (reachable_empty sample_env)))|].
  split; [vm_compute; reflexivity|].
  split; vm_compute; reflexivity.
Qed.

(** C9.  The identifiers the provider issues holding no colon, every
    entity a writing operation persists carries as [userId] the user of the
    key it is written under: every route keeps the table such that each
    entity is stored under a key of one user and carries that user's
    identifier as [userId]; hence, in every world the server can reach, an
    entity stored under a key [transaction:u:id] or [budget:u:id] of a user
    [u] has [userId] equal to [u]. *)
Theorem stored_userId_is_key_owner E :
  plain_identifiers E →
  (∀ rt r w, owned (kv w) → owned (kv (after (handle E rt r) w)))
  ∧ (∀ w u k v,
       reachable E w → no_colon u = true → key_of u k →
       kv w !! k = Some v → v !! "userId" = Some (JStr u)).
Proof.
  intros Hplain. split.
  - intros rt r w. by apply handle_owned.
  - intros w u k v Hw Hu Hk Hv.
    apply (owned_lookup (kv w) u k v); [by apply (reachable_owned E)|done..].
Qed.

Lemma stored_userId_is_key_owner_witness :
  default ∅ (kv plain_world !! transaction_key "alice" "txn_0") !! "userId"
  = Some (JStr "alice").
Proof.
  refine (proj2 (stored_userId_is_key_owner plain_env plain_env_plain_identifiers)
            plain_world "alice" (transaction_key "alice" "txn_0")
            (default ∅ (kv plain_world !! transaction_key "alice" "txn_0"))
            (reachable_step plain_env _ PostTransactions negative_expense
               (reachable_empty plain_env))
            eq_refl (ex_intro _ "txn_0" (or_introl eq_refl)) _).
  vm_compute. reflexivity.
Defined.

(** ** Every request is answered *)

Lemma wp_any {A} (m : M A) w : wp m (λ _ _, True) w.
Proof. done. Qed.

Ltac wp_skip_loop :=
  lazymatch goal with
  | |- wp (for_of _ _) _ _ =>
      eapply wp_mono; [apply wp_any|]; intros [[]|] ? _; wp_simpl
  end.

Ltac wp_run := repeat first [wp_step | wp_skip_loop].

(** X1. No handler lets an exception out: whatever the request, the state of
    the store and the answers of the provider, every route returns a
    response, and its status is one of 200, 400, 401, 404 and 500. *)
Theorem every_request_is_answered E rt r w :
  ∃ resp, answer (handle E rt r) w = Ret resp ∧ status resp ∈ status_codes.
Proof.
  change (wp (handle E rt r)
            (λ o _, ∃ resp, o = Ret resp ∧ status resp ∈ status_codes) w).
  destruct rt; cbn [handle]; wp_unfold; unfold iterate; wp_step;
    try (destruct (getUserId E r) as [userId|]);
    wp_run;
    (eexists; split; [reflexivity|];
     unfold unauthorized, json, json_error; cbn [status];
     apply (bool_decide_unpack _); vm_compute; exact I).
Qed.

(** ** Routes that only read *)

(** X2. The routes that list transactions, list budgets and export, and the
    two routes without credential, never change the table, whatever the
    request and whether the store answers or not. *)
Theorem reading_routes_keep_table E rt r w :
  reads_only rt = true → kv (after (handle E rt r) w) = kv w.
Proof.
  intros Hrt.
  change (wp (handle E rt r) (λ _ w', kv w' = kv w) w).
  destruct rt; try discriminate Hrt; cbn [handle]; wp_unfold; wp_step;
    try (destruct (getUserId E r) as [userId|]);
    by wp_run.
Qed.

Lemma reading_routes_keep_table_witness :
  kv (after (handle sample_env GetBudgets list_budgets) with_second_expense)
  = kv with_second_expense.
Proof.
  exact (reading_routes_keep_table sample_env GetBudgets list_budgets
           with_second_expense eq_refl).
Defined.

(** ** A store that is down *)

Ltac wp_down Hdown :=
  wp_step; try (match goal with H : kv_fails _ _ = false |- _ =>
                  by rewrite Hdown in H end).

(** X3. When the store fails every call, an authenticated request on any
    protected route other than import (with a body that parses, where the
    route reads one) is answered 500 with the message of that route, and
    the table is left as it was. *)
Theorem store_down_answers_500 E rt r w userId :
  unavailable E → calls_store_first rt = true →
  getUserId E r = Some userId →
  (reads_body rt = true → ∃ v, json_body r v) →
  answer (handle E rt r) w = Ret (json_error (failure_message rt) 500)
  ∧ kv (after (handle E rt r) w) = kv w.
Proof.
  intros Hdown Hrt Hauth Hbody.
  change (wp (handle E rt r)
            (λ o w', o = Ret (json_error (failure_message rt) 500) ∧ kv w' = kv w) w).
  destruct rt; try discriminate Hrt; cbn [handle failure_message];
    wp_unfold; wp_step; rewrite Hauth.
  all: try (destruct (Hbody eq_refl) as (v & Hv & Hnull & Hundef);
            wp_step; wp_step; [|destruct_or!; congruence]).
  all: repeat wp_down Hdown; done.
Qed.

Lemma store_down_answers_500_witness :
  answer (handle down_env PostTransactions (food_expense 50)) empty_world
  = Ret (json_error (failure_message PostTransactions) 500)
  ∧ kv (after (handle down_env PostTransactions (food_expense 50)) empty_world)
    = kv empty_world.
Proof.
  refine (store_down_answers_500 down_env PostTransactions (food_expense 50)
            empty_world "alice" (λ n, eq_refl) eq_refl _ _).
  - vm_compute. reflexivity.
  - intros _. eexists. split; [reflexivity|]. split; discriminate.
Defined.

(** ** Creation, and the budget step *)





(** ** Creating, then deleting *)






(** ** Budgets that are not there, and updates of budgets *)

Lemma put_budgets_succeeded E r w :
  succeeded (answer (put_budgets E r) w) = true →
  ∃ userId v existingBudget,
    getUserId E r = Some userId ∧ json_body r v
    ∧ kv w !! budget_key userId (param_id r) = Some existingBudget
    ∧ let b := merged_budget E existingBudget v (JStr (iso_time E (tick w))) in
      answer (put_budgets E r) w = Ret (json (JObj b))
      ∧ kv (after (put_budgets E r) w)
        = <[budget_key userId (param_id r) := b]> (kv w).
Proof.
  change (wp (put_budgets E r)
    (λ o w', succeeded o = true →
       ∃ userId v ex,
         getUserId E r = Some userId ∧ json_body r v
         ∧ kv w !! budget_key userId (param_id r) = Some ex
         ∧ o = Ret (json (JObj (merged_budget E ex v (JStr (iso_time E (tick w))))))
         ∧ kv w' = <[budget_key userId (param_id r) :=
                     merged_budget E ex v (JStr (iso_time E (tick w)))]> (kv w)) w).
  wp_unfold. wp_step. destruct (getUserId E r) as [userId|] eqn:Hauth;
    [|by wp_step].
  do 2 wp_step; [|by wp_step].
  do 2 wp_step; [by wp_step|].
  destruct (kv w !! budget_key userId (param_id r)) as [ex|] eqn:Hex;
    [|by wp_step].
  repeat wp_step; try done; intros _; by exists userId, v, ex.
Qed.

Lemma lookup_merged_budget_other E ex v u f :
  f ∉ assigned_by_budget_update → merged_budget E ex v u !! f = ex !! f.
Proof.
  intros Hf. unfold merged_budget, with_props. cbn [foldl fst snd].
  rewrite !lookup_insert_ne; [done|..]; intros <-; apply Hf;
    by apply (bool_decide_unpack _).
Qed.

Lemma delete_budgets_missing E r w userId :
  available E → getUserId E r = Some userId →
  kv w !! budget_key userId (param_id r) = None →
  answer (delete_budgets E r) w = Ret (json_error "Budget not found" 404)
  ∧ kv (after (delete_budgets E r) w) = kv w.
Proof.
  intros Hav Hauth Hmiss.
  change (wp (delete_budgets E r)
            (λ o w', o = Ret (json_error "Budget not found" 404) ∧ kv w' = kv w) w).
  wp_unfold. wp_step. rewrite Hauth. wp_step. wp_available Hav.
  rewrite Hmiss. by wp_step.
Qed.

(** X6. For an authenticated user and an identifier under which the user
    has no budget stored, the store answering: [DELETE /budgets/:id] answers
    404 [{error: "Budget not found"}], [PUT /budgets/:id] answers the same
    when its body parses to a value other than [null], and the table is left
    as it was in both cases. *)
Theorem missing_budget_not_found E r w userId :
  available E →
  getUserId E r = Some userId →
  kv w !! budget_key userId (param_id r) = None →
  (∀ v, json_body r v →
     answer (put_budgets E r) w = Ret (json_error "Budget not found" 404)
     ∧ kv (after (put_budgets E r) w) = kv w)
  ∧ answer (delete_budgets E r) w = Ret (json_error "Budget not found" 404)
  ∧ kv (after (delete_budgets E r) w) = kv w.
Proof.
  intros Hav Hauth Hmiss. split.
  - intros v (Hbody & Hnull & Hundef).
    change (wp (put_budgets E r)
              (λ o w', o = Ret (json_error "Budget not found" 404) ∧ kv w' = kv w) w).
    wp_unfold. wp_step. rewrite Hauth. wp_step. wp_step;
      [|destruct_or!; congruence].
    wp_step. wp_available Hav. rewrite Hmiss. by wp_step.
  - by apply (delete_budgets_missing E r w userId).
Qed.

Lemma missing_budget_not_found_witness :
  answer (delete_budgets sample_env (on_entity "txn_9")) with_budget
  = Ret (json_error "Budget not found" 404)
  ∧ kv (after (delete_budgets sample_env (on_entity "txn_9")) with_budget)
    = kv with_budget.
Proof.
  refine (proj2 (missing_budget_not_found sample_env (on_entity "txn_9") with_budget
                   "alice" (λ n, eq_refl) _ _)).
  - vm_compute. reflexivity.
  - vm_compute. reflexivity.
Defined.

(** X7. A successful update of a budget found the entity under the caller's
    key for the identifier of the route and stores, under that same key, the
    merge of the request over it: [category] and [period] are those of the
    request, [amount] is [parseFloat] of the request's, [updatedAt] is the
    time of the update, and every other field, [id], [userId] and
    [createdAt] among them, is as it was. *)
Theorem budget_update_merges_over_existing E r w :
  succeeded (answer (put_budgets E r) w) = true →
  ∃ userId v existingBudget b,
    getUserId E r = Some userId ∧ json_body r v
    ∧ kv w !! budget_key userId (param_id r) = Some existingBudget
    ∧ answer (put_budgets E r) w = Ret (json (JObj b))
    ∧ kv (after (put_budgets E r) w)
      = <[budget_key userId (param_id r) := b]> (kv w)
    ∧ (∀ f, f ∉ assigned_by_budget_update → b !! f = existingBudget !! f)
    ∧ b !! "category" = Some (prop v "category")
    ∧ b !! "amount" = Some (JNum (parseFloat E (prop v "amount")))
    ∧ b !! "period" = Some (prop v "period")
    ∧ b !! "updatedAt" = Some (JStr (iso_time E (tick w))).
Proof.
  intros Hok.
  destruct (put_budgets_succeeded E r w Hok)
    as (userId & v & ex & Hauth & Hbody & Hex & Hans & Hkv).
  exists userId, v, ex, (merged_budget E ex v (JStr (iso_time E (tick w)))).
  do 5 (split; [done|]).
  split; [intros f; apply lookup_merged_budget_other|].
  unfold merged_budget, with_props. cbn [foldl fst snd].
  repeat split; by simplify_map_eq.
Qed.

Lemma budget_update_merges_over_existing_witness :
  ∃ userId v existingBudget b,
    getUserId sample_env raise_food_budget = Some userId
    ∧ json_body raise_food_budget v
    ∧ kv with_budget !! budget_key userId (param_id raise_food_budget)
      = Some existingBudget
    ∧ answer (put_budgets sample_env raise_food_budget) with_budget
      = Ret (json (JObj b))
    ∧ kv (after (put_budgets sample_env raise_food_budget) with_budget)
      = <[budget_key userId (param_id raise_food_budget) := b]> (kv with_budget)
    ∧ (∀ f, f ∉ assigned_by_budget_update → b !! f = existingBudget !! f)
    ∧ b !! "category" = Some (prop v "category")
    ∧ b !! "amount" = Some (JNum (parseFloat sample_env (prop v "amount")))
    ∧ b !! "period" = Some (prop v "period")
    ∧ b !! "updatedAt" = Some (JStr (iso_time sample_env (tick with_budget))).
Proof.
  refine (budget_update_merges_over_existing sample_env raise_food_budget with_budget _).
  vm_compute. reflexivity.
Defined.

(** ** Creating, then listing *)




(** ** What the aggregation counts *)

Lemma categorySpending_app E ts ts' budget :
  categorySpending E (ts ++ ts') budget
  = foldl (λ sum t, js_add E sum (fld t "amount")) (categorySpending E ts budget)
      (List.filter (expense_of budget) ts').
Proof. unfold categorySpending. by rewrite List.filter_app, foldl_app. Qed.

Lemma expense_of_period budget p t :
  expense_of (<["period" := p]> budget) t = expense_of budget t.
Proof. unfold expense_of, fld. by rewrite lookup_insert_ne. Qed.

Lemma filter_expense_of_dated budget (d : obj → jsval) ts :
  List.filter (expense_of budget) ((λ t, <["date" := d t]> t) <$> ts)
  = (λ t, <["date" := d t]> t) <$> List.filter (expense_of budget) ts.
Proof.
  induction ts as [|t ts IH]; [done|]. cbn [fmap list_fmap List.filter].
  assert (expense_of budget (<["date" := d t]> t) = expense_of budget t) as ->.
  { unfold expense_of, fld. by rewrite !lookup_insert_ne. }
  destruct (expense_of budget t); cbn [fmap list_fmap]; by rewrite <- IH.
Qed.

(** X9. The spending of a budget starts from [0], counts a further
    transaction only when it is an expense of the budget's category, adding
    its amount, and depends neither on the budget's period nor on the dates
    of the transactions: the sum runs over all times. *)
Theorem spending_counts_matching_expenses E ts t budget :
  categorySpending E [] budget = JNum 0
  ∧ categorySpending E (ts ++ [t]) budget
    = (if expense_of budget t
       then js_add E (categorySpending E ts budget) (fld t "amount")
       else categorySpending E ts budget)
  ∧ (∀ p, categorySpending E ts (<["period" := p]> budget)
          = categorySpending E ts budget)
  ∧ (∀ d : obj → jsval,
       categorySpending E ((λ t, <["date" := d t]> t) <$> ts) budget
       = categorySpending E ts budget).
Proof.
  split; [done|]. split; [|split].
  - rewrite categorySpending_app. cbn [List.filter].
    by destruct (expense_of budget t).
  - intros p. unfold categorySpending. f_equal.
    apply List.filter_ext. intros x. apply expense_of_period.
  - intros d. unfold categorySpending.
    change (λ t0 : obj, strict_eq (fld t0 "type") (JStr "expense")
                        && strict_eq (fld t0 "category") (fld budget "category"))
      with (expense_of budget).
    rewrite filter_expense_of_dated.
    generalize (JNum 0). induction (List.filter (expense_of budget) ts) as [|x l IH];
      intros acc; [done|].
    cbn [fmap list_fmap foldl]. rewrite IH. f_equal. f_equal.
    unfold fld. by rewrite lookup_insert_ne.
Qed.

(** ** Keys *)

Lemma keys_eq_transaction u id u' id' :
  no_colon u = true → no_colon u' = true →
  transaction_key u id = transaction_key u' id' → u = u' ∧ id = id'.
Proof.
  intros Hu Hu' Heq. assert (u = u') as <-.
  { apply (transaction_prefix_owner u u' id'); [done..|].
    rewrite <- Heq. apply transaction_key_prefix. }
  split; [done|]. by apply (transaction_key_inj u).
Qed.

Lemma keys_eq_budget u id u' id' :
  no_colon u = true → no_colon u' = true →
  budget_key u id = budget_key u' id' → u = u' ∧ id = id'.
Proof.
  intros Hu Hu' Heq. assert (u = u') as <-.
  { apply (budget_prefix_owner u u' id'); [done..|].
    rewrite <- Heq. apply budget_key_prefix. }
  split; [done|]. by apply (budget_key_inj u).
Qed.

(** X10. Keys do not collide for users whose identifiers hold no colon: two
    transaction keys, or two budget keys, are equal only for the same user
    and the same entity identifier, and a transaction key is never a budget
    key. *)
Theorem keys_are_injective u id u' id' :
  no_colon u = true → no_colon u' = true →
  (transaction_key u id = transaction_key u' id' → u = u' ∧ id = id')
  ∧ (budget_key u id = budget_key u' id' → u = u' ∧ id = id')
  ∧ transaction_key u id ≠ budget_key u' id'.
Proof.
  intros Hu Hu'. split; [|split].
  - by apply keys_eq_transaction.
  - by apply keys_eq_budget.
  - apply transaction_key_not_budget.
Qed.

Lemma keys_are_injective_witness :
  (transaction_key "alice" "txn_0" = transaction_key "alice" "txn_0" →
   "alice" = "alice" ∧ "txn_0" = "txn_0")
  ∧ (budget_key "alice" "txn_0" = budget_key "alice" "txn_0" →
     "alice" = "alice" ∧ "txn_0" = "txn_0")
  ∧ transaction_key "alice" "txn_0" ≠ budget_key "alice" "txn_0".
Proof.
  exact (keys_are_injective "alice" "txn_0" "alice" "txn_0" eq_refl eq_refl).
Defined.

(** ** The access token *)

Lemma split_space_no_space s : no_space s = true → split_space s = [s].
Proof.
  unfold no_space. induction s as [|c s IH]; [done|]. cbn [no_char split_space].
  intros [Hc Hs]%andb_true_iff. apply negb_true_iff in Hc. rewrite Hc.
  by rewrite (IH Hs).
Qed.

Lemma split_space_word s t :
  no_space s = true → split_space (s +:+ " " +:+ t) = s :: split_space t.
Proof.
  unfold no_space. induction s as [|c s IH]; [done|].
  cbn [no_char]. intros [Hc Hs]%andb_true_iff. apply negb_true_iff in Hc.
  change (String c s +:+ " " +:+ t) with (String c (s +:+ " " +:+ t)).
  cbn [split_space]. by rewrite Hc, (IH Hs).
Qed.

Lemma getUserId_second_word E r h accessToken :
  authorization r = Some h → split_space h !! 1%nat = Some accessToken →
  getUserId E r = resolve E accessToken.
Proof. unfold getUserId, resolve. by intros -> ->. Qed.

(** X11. The access token is the second word of the [Authorization]
    header, words being separated by single spaces: the first word is not
    looked at (it need not be [Bearer]), what follows the second word is
    ignored, and a header of one word gives no identity. *)
Theorem token_is_second_word E r scheme accessToken rest :
  no_space scheme = true → no_space accessToken = true →
  (authorization r = Some (scheme +:+ " " +:+ accessToken) →
   getUserId E r = resolve E accessToken)
  ∧ (authorization r = Some (scheme +:+ " " +:+ accessToken +:+ " " +:+ rest) →
     getUserId E r = resolve E accessToken)
  ∧ (authorization r = Some scheme → getUserId E r = None).
Proof.
  intros Hs Ht. split; [|split]; intros Hh.
  - apply (getUserId_second_word E r _ _ Hh).
    by rewrite split_space_word, split_space_no_space.
  - apply (getUserId_second_word E r _ _ Hh).
    by rewrite !split_space_word.
  - unfold getUserId. by rewrite Hh, split_space_no_space.
Qed.

Lemma token_is_second_word_witness :
  (authorization (bearer "token-alice" EmptyString None)
     = Some ("Bearer" +:+ " " +:+ "token-alice") →
   getUserId sample_env (bearer "token-alice" EmptyString None)
   = resolve sample_env "token-alice")
  ∧ (authorization (bearer "token-alice" EmptyString None)
       = Some ("Bearer" +:+ " " +:+ "token-alice" +:+ " " +:+ "trailing") →
     getUserId sample_env (bearer "token-alice" EmptyString None)
     = resolve sample_env "token-alice")
  ∧ (authorization (bearer "token-alice" EmptyString None) = Some "Bearer" →
     getUserId sample_env (bearer "token-alice" EmptyString None) = None).
Proof.
  exact (token_is_second_word sample_env (bearer "token-alice" EmptyString None)
           "Bearer" "token-alice" "trailing" eq_refl eq_refl).
Defined.

(** ** The identifier of a stored entity *)

Lemma keyed_empty : keyed ∅.
Proof. intros k v. by rewrite lookup_empty. Qed.

Lemma keyed_insert_new m u id k v :
  no_colon u = true → k = transaction_key u id ∨ k = budget_key u id →
  v !! "id" = Some (JStr id) → keyed m → keyed (<[k := v]> m).
Proof.
  intros Hu Hk Hv Hm k' v'. destruct (decide (k = k')) as [<-|Hne].
  - rewrite lookup_insert_eq. intros [= <-]. by exists u, id.
  - rewrite lookup_insert_ne by done. apply Hm.
Qed.

Lemma keyed_insert_same m k existing v :
  keyed m → m !! k = Some existing → v !! "id" = existing !! "id" →
  keyed (<[k := v]> m).
Proof.
  intros Hm Hex Hv k' v'. destruct (decide (k = k')) as [<-|Hne].
  - rewrite lookup_insert_eq. intros [= <-].
    destruct (Hm k existing Hex) as (u & id & Hu & Hk & Hid).
    exists u, id. by rewrite Hv.
  - rewrite lookup_insert_ne by done. apply Hm.
Qed.

Lemma keyed_delete m k : keyed m → keyed (delete k m).
Proof.
  intros Hm k' v'. destruct (decide (k = k')) as [<-|Hne].
  - by rewrite lookup_delete_eq.
  - rewrite lookup_delete_ne by done. apply Hm.
Qed.

Lemma keyed_lookup m u id v :
  keyed m → no_colon u = true →
  m !! transaction_key u id = Some v ∨ m !! budget_key u id = Some v →
  v !! "id" = Some (JStr id).
Proof.
  intros Hm Hu [Hv|Hv]; destruct (Hm _ v Hv) as (u' & id' & Hu' & [Hk|Hk] & Hid).
  - apply keys_eq_transaction in Hk as [_ ->]; done.
  - by apply transaction_key_not_budget in Hk.
  - symmetry in Hk. by apply transaction_key_not_budget in Hk.
  - apply keys_eq_budget in Hk as [_ ->]; done.
Qed.

Ltac keyed_leaf Hu Hw :=
  cbn [kv stored logged ticked];
  first
    [ exact Hw
    | apply keyed_delete; exact Hw
    | eapply keyed_insert_same;
        [ exact Hw | eassumption
        | unfold with_props; cbn [foldl fst snd];
          by rewrite !lookup_insert_ne by done ]
    | eapply keyed_insert_new;
        [ exact Hu
        | first [left; reflexivity | right; reflexivity]
        | unfold with_props; cbn [foldl fst snd];
          rewrite ?lookup_insert_ne by done; apply lookup_insert_eq
        | exact Hw ] ].

Lemma wp_import_loop_keyed E key u items w :
  no_colon u = true →
  (∀ id, key u id = transaction_key u id ∨ key u id = budget_key u id) →
  keyed (kv w) →
  wp (for_of items (import_item E key u)) (λ _ w', keyed (kv w')) w.
Proof.
  intros Hu Hkey Hw.
  apply (wp_for_of (λ w', keyed (kv w'))); [done|].
  intros item w' _ Hw'. unfold import_item, kv_set.
  repeat wp_step; [done|].
  eapply keyed_insert_new; [exact Hu|apply Hkey|apply imported_item_id|done].
Qed.

Lemma wp_delete_loop_keyed E (key : string → string → string) u (entities : list obj) w :
  keyed (kv w) →
  wp (for_of entities (λ e, kv_del E (key u (to_string E (fld e "id")))))
    (λ _ w', keyed (kv w')) w.
Proof.
  intros Hw.
  apply (wp_for_of (λ w', keyed (kv w'))); [done|].
  intros item w' _ Hw'. unfold kv_del.
  repeat wp_step; [done|]. by apply keyed_delete.
Qed.

Lemma import_data_keyed E r w :
  plain_identifiers E → keyed (kv w) → keyed (kv (after (import_data E r) w)).
Proof.
  intros Hplain Hw.
  change (wp (import_data E r) (λ _ w', keyed (kv w')) w).
  unfold import_data, iterate. cbv zeta. wp_step.
  destruct (getUserId E r) as [userId|] eqn:Hauth; [|by wp_step].
  pose proof (getUserId_plain E r userId Hplain Hauth) as Hu.
  wp_step. wp_step; [|by wp_step].
  wp_step. wp_step; wp_step; try (by wp_step).
  all: wp_step;
    (eapply wp_mono;
     [apply (wp_import_loop_keyed E transaction_key userId); [done|by left|done]|]);
    intros [[]|] w1 Hw1; wp_simpl; [|by wp_step];
    wp_step; wp_step; wp_step; try (by wp_step).
  all: wp_step;
    (eapply wp_mono;
     [apply (wp_import_loop_keyed E budget_key userId); [done|by right|done]|]);
    intros [[]|] w2 Hw2; wp_simpl; by wp_step.
Qed.

Lemma delete_account_keyed E r w :
  keyed (kv w) → keyed (kv (after (delete_account E r) w)).
Proof.
  intros Hw.
  change (wp (delete_account E r) (λ _ w', keyed (kv w')) w).
  unfold delete_account, kv_getByPrefix. cbv zeta. wp_step.
  destruct (getUserId E r) as [userId|] eqn:Hauth; [|by wp_step].
  do 2 wp_step; [by wp_step|].
  do 2 wp_step; [by wp_step|].
  wp_step.
  eapply wp_mono; [by apply (wp_delete_loop_keyed E transaction_key userId)|].
  intros [[]|] w1 Hw1; wp_simpl; [|by wp_step].
  wp_step.
  eapply wp_mono; [by apply (wp_delete_loop_keyed E budget_key userId)|].
  intros [[]|] w2 Hw2; wp_simpl; by wp_step.
Qed.

Lemma handle_keyed E rt r w :
  plain_identifiers E → keyed (kv w) → keyed (kv (after (handle E rt r) w)).
Proof.
  intros Hplain Hw.
  destruct rt; cbn [handle];
    try (by apply import_data_keyed);
    try (by apply delete_account_keyed).
  all: match goal with
       | |- keyed (kv (after ?m _)) => change (wp m (λ _ w', keyed (kv w')) w)
       end.
  all: wp_unfold; try wp_step.
  all: try (destruct (getUserId E r) as [userId|] eqn:Hauth; [|by wp_step];
            pose proof (getUserId_plain E r userId Hplain Hauth) as Hu).
  all: repeat wp_step; by keyed_leaf Hu Hw.
Qed.

Lemma reachable_keyed E w : plain_identifiers E → reachable E w → keyed (kv w).
Proof.
  intros Hplain Hw. induction Hw as [|w rt r _ IH].
  - apply keyed_empty.
  - by apply handle_keyed.
Qed.

(** X12. When the identifiers the provider issues hold no colon, every
    route keeps the table such that each entity carries as [id] the entity
    identifier of its key; hence, in every world the server can reach, the
    entity stored under [transaction:u:id] or [budget:u:id] has the [id]
    field [id]: creation and import write the identifier they put in the
    key, and updates keep it. *)
Theorem stored_id_is_key_identifier E :
  plain_identifiers E →
  (∀ rt r w, keyed (kv w) → keyed (kv (after (handle E rt r) w)))
  ∧ (∀ w u id v,
       reachable E w → no_colon u = true →
       kv w !! transaction_key u id = Some v ∨ kv w !! budget_key u id = Some v →
       v !! "id" = Some (JStr id)).
Proof.
  intros Hplain. split.
  - intros rt r w. by apply handle_keyed.
  - intros w u id v Hw Hu Hv.
    apply (keyed_lookup (kv w) u id v); [by apply (reachable_keyed E)|done..].
Qed.

Lemma stored_id_is_key_identifier_witness :
  default ∅ (kv plain_world !! transaction_key "alice" "txn_0") !! "id"
  = Some (JStr "txn_0").
Proof.
  assert (bool_decide (is_Some (kv plain_world !! transaction_key "alice" "txn_0"))
          = true) as Hsome by (vm_compute; reflexivity).
  destruct (kv plain_world !! transaction_key "alice" "txn_0") as [v|] eqn:Hv.
  - exact (proj2 (stored_id_is_key_identifier plain_env plain_env_plain_identifiers)
             plain_world "alice" "txn_0" v
             (reachable_step plain_env _ PostTransactions negative_expense
                (reachable_empty plain_env))
             eq_refl (or_introl Hv)).
  - discriminate Hsome.
Defined.

(** ** Deleting an account *)

Lemma lookup_without_keys ks (m : gmap string obj) k :
  without_keys ks m !! k = if bool_decide (k ∈ ks) then None else m !! k.
Proof.
  unfold without_keys. revert m. induction ks as [|x ks IH]; intros m; cbn [foldl].
  - by rewrite bool_decide_eq_false_2 by apply not_elem_of_nil.
  - rewrite IH. destruct (decide (k = x)) as [->|Hne].
    + rewrite lookup_delete_eq, (bool_decide_eq_true_2 (x ∈ x :: ks)) by left.
      by destruct (bool_decide (x ∈ ks)).
    + rewrite lookup_delete_ne by done.
      destruct (decide (k ∈ ks)) as [Hin|Hnin].
      * by rewrite !bool_decide_eq_true_2 by (done || by right).
      * rewrite !bool_decide_eq_false_2; [done| |done].
        intros [?|?]%elem_of_cons; done.
Qed.

Lemma wp_delete_loop E (key : string → string → string) u (entities : list obj) w :
  available E →
  wp (for_of entities (λ e, kv_del E (key u (to_string E (fld e "id")))))
    (λ a w', a = Ret tt
             ∧ kv w' = without_keys (deleted_keys E key u entities) (kv w)) w.
Proof.
  intros Hav. revert w. induction entities as [|e l IH]; intros w; [done|].
  cbn [for_of]. wp_step. unfold kv_del at 1. wp_step; [by rewrite Hav in *|].
  wp_simpl. eapply wp_mono; [apply IH|].
  by intros a w' [-> ->].
Qed.

Lemma wp_delete_loop_others E (key : string → string → string) u (entities : list obj)
    (I : gmap string obj → Prop) w :
  (∀ m id, I m → I (delete (key u id) m)) →
  I (kv w) →
  wp (for_of entities (λ e, kv_del E (key u (to_string E (fld e "id")))))
    (λ _ w', I (kv w')) w.
Proof.
  intros Hdel Hw.
  apply (wp_for_of (λ w', I (kv w'))); [done|].
  intros item w' _ Hw'. unfold kv_del.
  repeat wp_step; [done|]. by apply Hdel.
Qed.

Lemma in_account_transaction_key u id : in_account u (transaction_key u id) = true.
Proof. unfold in_account. by rewrite transaction_key_prefix. Qed.

Lemma in_account_budget_key u id : in_account u (budget_key u id) = true.
Proof. unfold in_account. by rewrite budget_key_prefix, orb_true_r. Qed.

Lemma delete_account_others E r w userId k :
  getUserId E r = Some userId → in_account userId k = false →
  kv (after (delete_account E r) w) !! k = kv w !! k.
Proof.
  intros Hauth Hk.
  change (wp (delete_account E r) (λ _ w', kv w' !! k = kv w !! k) w).
  assert (∀ key : string → string → string, (∀ id, in_account userId (key userId id) = true) →
            ∀ (m : gmap string obj) id,
              m !! k = kv w !! k → delete (key userId id) m !! k = kv w !! k) as Hdel.
  { intros key Hkey m id Hm. rewrite lookup_delete_ne; [done|].
    intros <-. by rewrite Hkey in Hk. }
  unfold delete_account, kv_getByPrefix. cbv zeta. wp_step. rewrite Hauth.
  do 2 wp_step; [by wp_step|].
  do 2 wp_step; [by wp_step|].
  wp_step.
  eapply wp_mono;
    [apply (wp_delete_loop_others E transaction_key userId _
              (λ m, m !! k = kv w !! k));
       [apply Hdel, in_account_transaction_key|done]|].
  intros [[]|] w1 Hw1; wp_simpl; [|by wp_step].
  wp_step.
  eapply wp_mono;
    [apply (wp_delete_loop_others E budget_key userId _
              (λ m, m !! k = kv w !! k));
       [apply Hdel, in_account_budget_key|done]|].
  intros [[]|] w2 Hw2; wp_simpl; by wp_step.
Qed.

Lemma delete_account_available E r w userId :
  available E → getUserId E r = Some userId →
  answer (delete_account E r) w = Ret success_response
  ∧ kv (after (delete_account E r) w)
    = without_keys (deleted_keys E budget_key userId (user_budgets userId w))
        (without_keys
           (deleted_keys E transaction_key userId (user_transactions userId w))
           (kv w)).
Proof.
  intros Hav Hauth.
  change (wp (delete_account E r)
            (λ a w', a = Ret success_response
                     ∧ kv w' = without_keys
                         (deleted_keys E budget_key userId (user_budgets userId w))
                         (without_keys
                            (deleted_keys E transaction_key userId
                               (user_transactions userId w)) (kv w))) w).
  unfold delete_account, kv_getByPrefix. cbv zeta. wp_step. rewrite Hauth.
  do 2 wp_step; [by rewrite Hav in *|].
  do 2 wp_step; [by rewrite Hav in *|].
  wp_simpl. wp_step.
  eapply wp_mono; [by apply (wp_delete_loop E transaction_key userId)|].
  intros a w1 [-> Hw1]; wp_simpl.
  wp_step.
  eapply wp_mono; [by apply (wp_delete_loop E budget_key userId)|].
  intros a w2 [-> Hw2]; wp_simpl. wp_step.
  split; [done|]. by rewrite Hw2, Hw1.
Qed.

Lemma keyed_deleted_key E (m : gmap string obj) userId k v :
  keyed m → no_colon userId = true → m !! k = Some v →
  (String.prefix (transaction_prefix userId) k = true →
   k = transaction_key userId (to_string E (fld v "id")))
  ∧ (String.prefix (budget_prefix userId) k = true →
     k = budget_key userId (to_string E (fld v "id"))).
Proof.
  intros Hm Hu Hv. destruct (Hm k v Hv) as (u & id & Hu' & [->| ->] & Hid).
  all: unfold fld; rewrite Hid; cbn [default to_string]; split; intros Hp.
  - by rewrite (transaction_prefix_owner userId u id).
  - by rewrite budget_prefix_not_transaction in Hp.
  - by rewrite transaction_prefix_not_budget in Hp.
  - by rewrite (budget_prefix_owner userId u id).
Qed.

(** X13. Deleting an account changes no entry outside the caller's two
    prefixes, whatever the store does; and when the store is available,
    the caller's identifier holds no colon and every stored entity carries
    the identifier of its key, it answers [{ success: true }] and leaves no
    transaction and no budget of the caller. *)
Theorem delete_account_empties_account E r w userId :
  getUserId E r = Some userId →
  (∀ k, in_account userId k = false →
        kv (after (delete_account E r) w) !! k = kv w !! k)
  ∧ (available E → no_colon userId = true → keyed (kv w) →
     answer (delete_account E r) w = Ret success_response
     ∧ empty_account userId (after (delete_account E r) w)).
Proof.
  intros Hauth. split.
  - intros k. by apply delete_account_others.
  - intros Hav Hu Hw.
    destruct (delete_account_available E r w userId Hav Hauth) as [Hans Hkv].
    split; [done|].
    assert (∀ k, in_account userId k = true →
                 kv (after (delete_account E r) w) !! k = None) as Hnone.
    { intros k Hk. rewrite Hkv, !lookup_without_keys.
      destruct (kv w !! k) as [v|] eqn:Hv.
      2:{ by repeat case_bool_decide. }
      destruct (keyed_deleted_key E (kv w) userId k v Hw Hu Hv) as [Ht Hb].
      apply orb_true_iff in Hk as [Hk|Hk].
      - rewrite (bool_decide_eq_true_2
                   (k ∈ deleted_keys E transaction_key userId
                          (user_transactions userId w))).
        { by case_bool_decide. }
        rewrite (Ht Hk) at 1. unfold deleted_keys.
        apply list_elem_of_fmap. exists v. split; [done|].
        unfold user_transactions. apply list_elem_of_fmap. exists (k, v).
        split; [done|]. by apply elem_of_scan.
      - rewrite (bool_decide_eq_true_2
                   (k ∈ deleted_keys E budget_key userId (user_budgets userId w))).
        { done. }
        rewrite (Hb Hk) at 1. unfold deleted_keys.
        apply list_elem_of_fmap. exists v. split; [done|].
        unfold user_budgets. apply list_elem_of_fmap. exists (k, v).
        split; [done|]. by apply elem_of_scan. }
    assert (∀ p, (∀ k, String.prefix p k = true → in_account userId k = true) →
              scan p (kv (after (delete_account E r) w)) = []) as Hscan.
    { intros p Hp. destruct (scan p _) as [|[k v] l] eqn:Hl; [done|].
      assert ((k, v) ∈ scan p (kv (after (delete_account E r) w))) as Hin.
      { rewrite Hl. left. }
      apply elem_of_scan in Hin as [Hv Hk]. by rewrite (Hnone k (Hp k Hk)) in Hv. }
    unfold empty_account, user_transactions, user_budgets.
    rewrite !Hscan; [done|..]; intros k Hk; unfold in_account; rewrite Hk;
      [apply orb_true_r|done].
Qed.

Lemma delete_account_empties_account_witness :
  (kv (after (delete_account plain_env by_alice) two_accounts)
     !! transaction_key "bob" "txn_6"
   = kv two_accounts !! transaction_key "bob" "txn_6"
   ∧ stored_field two_accounts (transaction_key "bob" "txn_6") "userId"
     = Some (JStr "bob"))
  ∧ length (user_transactions "alice" two_accounts) = 2
  ∧ answer (delete_account plain_env by_alice) two_accounts = Ret success_response
  ∧ empty_account "alice" (after (delete_account plain_env by_alice) two_accounts).
Proof.
  pose proof (delete_account_empties_account plain_env by_alice two_accounts
                "alice" eq_refl) as [Hothers Hempty].
  split; [split|split].
  - apply Hothers. vm_compute. reflexivity.
  - vm_compute. reflexivity.
  - vm_compute. reflexivity.
  - apply Hempty; [done|reflexivity|].
    apply (reachable_keyed plain_env); [apply plain_env_plain_identifiers|].
    unfold two_accounts.
    do 4 apply reachable_step. apply reachable_empty.
Defined.

(** ** Imports that fail *)

Lemma iterate_not_iterable v Q w :
  iterable v = false → Q Throw w → wp (iterate v) Q w.
Proof. intros Hv HQ. unfold iterate. destruct v; try done; by wp_step. Qed.

Lemma wp_import_loop_failing E key u items w j :
  j < length items → fails_at E w j →
  wp (for_of items (import_item E key u))
    (λ o w', o = Throw
             ∧ kv w' = kv (write_all (import_writes E key u (tick w) (take j items)) w)) w.
Proof.
  revert w j. induction items as [|item items IH]; intros w j Hj [Hok Hfail].
  { cbn in Hj. lia. }
  cbn [for_of]. wp_step. unfold import_item at 1; unfold kv_set. do 5 wp_step.
  - destruct j as [|j]; [by rewrite take_0|].
    pose proof (Hok 0 ltac:(lia)) as H0. rewrite Nat.add_0_r in H0.
    cbn [trace ticked] in *. congruence.
  - destruct j as [|j];
      [rewrite Nat.add_0_r in Hfail; cbn [trace ticked] in *; congruence|].
    cbn [take import_writes]. rewrite <- write_all_cons.
    eapply wp_mono.
    { apply (IH _ j); [cbn in Hj; lia|]. unfold fails_at.
      cbn [trace stored logged ticked].
      rewrite length_app. cbn [length].
      split; [intros i Hi; rewrite <- (Hok (S i)) by lia|rewrite <- Hfail];
        f_equal; lia. }
    intros o w' [-> Hkv]. by wp_simpl.
Qed.

Lemma import_data_failing E r w userId v ts j :
  getUserId E r = Some userId → json_body r v →
  prop v "transactions" = JArr ts → j < length ts → fails_at E w j →
  answer (import_data E r) w = Ret import_failed
  ∧ kv (after (import_data E r) w)
    = kv (write_all (import_writes E transaction_key userId (tick w) (take j ts)) w).
Proof.
  intros Hauth (Hbody & Hnull & Hundef) Hts Hj Hfails.
  change (wp (import_data E r)
    (λ o w', o = Ret import_failed
             ∧ kv w' = kv (write_all (import_writes E transaction_key userId (tick w)
                                        (take j ts)) w)) w).
  unfold import_data. cbv zeta. wp_step. rewrite Hauth. wp_step. wp_step;
    [|destruct_or!; congruence].
  assert (v0 = v) as -> by congruence.
  rewrite Hts. cbn [or_empty iterate]. do 3 wp_step.
  eapply wp_mono; [by apply (wp_import_loop_failing E transaction_key userId ts w j)|].
  intros o w1 [-> Hkv]. wp_simpl. by wp_step.
Qed.

Lemma import_data_budgets_not_iterable E r w userId v ts :
  available E → getUserId E r = Some userId → json_body r v →
  prop v "transactions" = JArr ts → iterable (or_empty (prop v "budgets")) = false →
  answer (import_data E r) w = Ret import_failed
  ∧ after (import_data E r) w
    = write_all (import_writes E transaction_key userId (tick w) ts) w.
Proof.
  intros Hav Hauth (Hbody & Hnull & Hundef) Hts Hbs.
  change (wp (import_data E r)
    (λ o w', o = Ret import_failed
             ∧ w' = write_all (import_writes E transaction_key userId (tick w) ts) w) w).
  unfold import_data. cbv zeta. wp_step. rewrite Hauth. wp_step. wp_step;
    [|destruct_or!; congruence].
  assert (v0 = v) as -> by congruence.
  rewrite Hts. cbn [or_empty iterate]. do 3 wp_step.
  eapply wp_mono; [apply wp_import_loop|].
  intros [[]|] w1; wp_simpl; [|done].
  intros ->. wp_step. apply iterate_not_iterable; [done|]. wp_simpl. by wp_step.
Qed.

(** X14. An import is not undone when it fails.  When the store fails at
    the write of the item of index [j] of [transactions], the answer is
    status 500 with [Failed to import data] and the [j] transactions before
    it stay written; when [budgets] is a value that cannot be iterated, the
    answer is the same 500 and all the transactions stay written. *)
Theorem failed_import_keeps_earlier_writes E r w userId v ts :
  getUserId E r = Some userId → json_body r v →
  prop v "transactions" = JArr ts →
  (∀ j, j < length ts → fails_at E w j →
        answer (import_data E r) w = Ret import_failed
        ∧ kv (after (import_data E r) w)
          = kv (write_all (import_writes E transaction_key userId (tick w)
                             (take j ts)) w))
  ∧ (available E → iterable (or_empty (prop v "budgets")) = false →
     answer (import_data E r) w = Ret import_failed
     ∧ after (import_data E r) w
       = write_all (import_writes E transaction_key userId (tick w) ts) w).
Proof.
  intros Hauth Hbody Hts. split.
  - intros j Hj Hfails. by apply (import_data_failing E r w userId v ts j).
  - intros Hav Hbs. by apply (import_data_budgets_not_iterable E r w userId v ts).
Qed.

Lemma failed_import_keeps_earlier_writes_witness :
  (answer (import_data flaky_env sample_import) empty_world = Ret import_failed
   ∧ stored_field (after (import_data flaky_env sample_import) empty_world)
       (transaction_key "bob" "txn_0") "userId" = Some (JStr "bob")
   ∧ size (kv (after (import_data flaky_env sample_import) empty_world)) = 1)
  ∧ answer (import_data sample_env import_without_budget_list) empty_world
    = Ret import_failed
  ∧ size (kv (after (import_data sample_env import_without_budget_list) empty_world))
    = 2.
Proof.
  assert (getUserId flaky_env sample_import = Some "bob") as Hauth
    by (vm_compute; reflexivity).
  assert (json_body sample_import sample_backup) as Hbody
    by (split; [reflexivity|split; discriminate]).
  assert (prop sample_backup "transactions" = JArr sample_transactions) as Hts
    by (vm_compute; reflexivity).
  assert (getUserId sample_env import_without_budget_list = Some "bob") as Hauth'
    by (vm_compute; reflexivity).
  assert (json_body import_without_budget_list (body_of import_without_budget_list))
    as Hbody' by (split; [reflexivity|split; discriminate]).
  assert (prop (body_of import_without_budget_list) "transactions"
          = JArr sample_transactions) as Hts'
    by (vm_compute; reflexivity).
  split.
  - destruct (proj1 (failed_import_keeps_earlier_writes flaky_env sample_import
                       empty_world "bob" sample_backup sample_transactions
                       Hauth Hbody Hts) 1) as [Hans Hkv].
    + vm_compute. lia.
    + split; [|reflexivity]. intros i Hi. assert (i = 0) as -> by lia. reflexivity.
    + split; [exact Hans|]. unfold stored_field. rewrite Hkv.
      split; vm_compute; reflexivity.
  - destruct (proj2 (failed_import_keeps_earlier_writes sample_env
                       import_without_budget_list empty_world "bob"
                       (body_of import_without_budget_list) sample_transactions
                       Hauth' Hbody' Hts')) as [Hans Hw].
    + intros n. reflexivity.
    + vm_compute. reflexivity.
    + split; [exact Hans|]. rewrite Hw. vm_compute. reflexivity.
Defined.

(** X15. An import that has nothing to iterate makes no call of the store
    and leaves the world as it was, whatever the state of the store: with
    neither [transactions] nor [budgets] in the body it reports zero
    imported entities, and with a [transactions] that cannot be iterated
    ([null], a number, a boolean, an object) it answers status 500. *)
Theorem import_without_items_calls_nothing E r w userId v :
  getUserId E r = Some userId → json_body r v →
  (prop v "transactions" = JUndef → prop v "budgets" = JUndef →
   answer (import_data E r) w = Ret (import_report 0 0)
   ∧ after (import_data E r) w = w)
  ∧ (iterable (or_empty (prop v "transactions")) = false →
     answer (import_data E r) w = Ret import_failed
     ∧ after (import_data E r) w = w).
Proof.
  intros Hauth (Hbody & Hnull & Hundef). split.
  - intros Hts Hbs.
    change (wp (import_data E r)
              (λ o w', o = Ret (import_report 0 0) ∧ w' = w) w).
    unfold import_data. cbv zeta. wp_step. rewrite Hauth. wp_step. wp_step;
      [|destruct_or!; congruence].
    assert (v0 = v) as -> by congruence.
    rewrite Hts, Hbs. cbn [or_empty iterate for_of]. by repeat wp_step.
  - intros Hts.
    change (wp (import_data E r) (λ o w', o = Ret import_failed ∧ w' = w) w).
    unfold import_data. cbv zeta. wp_step. rewrite Hauth. wp_step. wp_step;
      [|destruct_or!; congruence].
    assert (v0 = v) as -> by congruence.
    wp_step. apply iterate_not_iterable; [done|]. wp_simpl. by wp_step.
Qed.

Lemma import_without_items_calls_nothing_witness :
  (answer (import_data down_env empty_import) with_budget = Ret (import_report 0 0)
   ∧ after (import_data down_env empty_import) with_budget = with_budget)
  ∧ answer (import_data sample_env null_import) with_budget = Ret import_failed
  ∧ after (import_data sample_env null_import) with_budget = with_budget.
Proof.
  assert (getUserId down_env empty_import = Some "bob") as Hauth
    by (vm_compute; reflexivity).
  assert (json_body empty_import (body_of empty_import)) as Hbody
    by (split; [reflexivity|split; discriminate]).
  assert (getUserId sample_env null_import = Some "bob") as Hauth'
    by (vm_compute; reflexivity).
  assert (json_body null_import (body_of null_import)) as Hbody'
    by (split; [reflexivity|split; discriminate]).
  split.
  - apply (proj1 (import_without_items_calls_nothing down_env empty_import
                    with_budget "bob" (body_of empty_import) Hauth Hbody));
      vm_compute; reflexivity.
  - apply (proj2 (import_without_items_calls_nothing sample_env null_import
                    with_budget "bob" (body_of null_import) Hauth' Hbody')).
    vm_compute. reflexivity.
Defined.

(** ** Export and the listing routes *)



(** ** Deleting twice *)



(** ** Failures after the write *)






(** ** The routes without credential *)

(** X19. Signing up concerns the provider alone: the answer depends on the
    body of the request only, not on the [Authorization] header, the
    identifier of the route or the table, and the world is left as it was,
    no call of the store being made; the health check makes no call of the
    store either and answers 200 to every request. *)
Theorem signup_ignores_table_and_caller E r r' w w' :
  body r = body r' →
  answer (handle E Signup r) w = answer (handle E Signup r') w'
  ∧ after (handle E Signup r) w = w
  ∧ kv (after (handle E Health r) w) = kv w
  ∧ trace (after (handle E Health r) w) = trace w
  ∧ succeeded (answer (handle E Health r) w) = true.
Proof.
  intros Hbody. cbn [handle].
  unfold signup, health, destructure, try_catch, now, answer, after,
    mbind, M_bind, bind, mret, M_ret, ret, throw.
  rewrite <- Hbody.
  destruct (body r) as [v|]; [|done].
  destruct v; cbn; try done;
    match goal with
    | |- context [auth_createUser E ?a ?b ?c] => by destruct (auth_createUser E a b c)
    end.
Qed.

Lemma signup_ignores_table_and_caller_witness :
  answer (handle sample_env Signup (bearer "token-alice" "txn_0" (Some (object []))))
    with_budget
  = answer (handle sample_env Signup (anonymous EmptyString (Some (object []))))
      empty_world
  ∧ after (handle sample_env Signup (bearer "token-alice" "txn_0" (Some (object []))))
      with_budget = with_budget.
Proof.
  pose proof (signup_ignores_table_and_caller sample_env
                (bearer "token-alice" "txn_0" (Some (object [])))
                (anonymous EmptyString (Some (object [])))
                with_budget empty_world eq_refl) as (Hans & Hw & _).
  split; [exact Hans|exact Hw].
Defined.
